(** * scraping-homework: the bounded-concurrency download pipeline of [index.js]

    A shallow embedding of [src/index.js] and the properties its
    specification states about it.

    Modelling conventions.
    - JavaScript values are the inductive type [value]; a string is its
      sequence of UTF-8 bytes ([string]); a number is the double nearest to
      an integer ([Z]), which is that integer up to 2^53.
    - A promise is described by what eventually happens to it and when:
      time is a natural number (logical instants of the event loop), and a
      promise is [Fulfilled t v], [Rejected t e] or [Pending] for ever.
    - A transform handed to [promiseEach] is a function from the argument
      list of a call to the [settlement] of the promise that call returns;
      how long each call takes is the separate parameter [latency], indexed
      by the number of the call.
    - The array [parameters] is mutated by [splice]; the model passes it
      along explicitly and returns its final contents.
    - The recursion of [promiseEach] is not structural, so the model takes
      fuel: one unit per call of [promiseEach]. *)

From Stdlib Require Import ZArith List String Ascii Bool Arith Lia.
From Stdlib Require Import DecimalString.
Import ListNotations.

#[local] Set Warnings "-register-all".

Local Open Scope string_scope.
Local Open Scope list_scope.

(* ===================================================================== *)
(** * JavaScript values and the built-ins the program uses *)
(* ===================================================================== *)

Module JS.

Inductive value : Type :=
| VUndefined
| VNumber (z : Z)
| VString (s : string)
| VError (message : string)
| VArray (elements : list value).

(** [Array.isArray] *)
Definition isArray (v : value) : bool :=
  match v with VArray _ => true | _ => false end.

(** [!v] on the values a concurrency limit can take: [undefined] and the
    number 0 are falsy, every other number is truthy. *)
Definition falsy (v : option Z) : bool :=
  match v with
  | None => true
  | Some z => (z =? 0)%Z
  end.

(** [array.splice(0, deleteCount)]: the removed prefix and what is left in
    the array.  ECMAScript clamps the count to [min(max(deleteCount, 0),
    length)]. *)
Definition splice0 {A : Type} (array : list A) (deleteCount : Z)
  : list A * list A :=
  let actual := Z.to_nat (Z.min (Z.max deleteCount 0)
                                (Z.of_nat (List.length array))) in
  (firstn actual array, skipn actual array).

(** One argument of [Array.prototype.concat]: an array is spread by one
    level, anything else is appended as a single element. *)
Definition concat_item (v : value) : list value :=
  match v with VArray l => l | _ => [v] end.

(** [this.concat(...args)] *)
Definition concat (this : list value) (args : list value) : list value :=
  this ++ flat_map concat_item args.

(** The decimal digits of an integer. *)
Definition string_of_Z (z : Z) : string :=
  NilZero.string_of_int (Z.to_int z).

(** ** Numbers as text

    A number of the program is a double.  [VNumber z] stands for the double
    nearest to the integer [z] (ties to the even mantissa): [z] itself up to
    2^53. *)
Definition double_exponent (z : Z) : Z := Z.max 0 (Z.log2 z + 1 - 53).

Definition nearest_double (z : Z) : Z :=
  let e := double_exponent z in
  let q := Z.shiftr z e in
  let r := (z - Z.shiftl q e)%Z in
  let half := Z.shiftl 1 (e - 1) in
  let q' := if (e =? 0)%Z then q
            else if (half <? r)%Z || ((half =? r)%Z && Z.odd q)
                 then (q + 1)%Z else q in
  Z.shiftl q' e.

(** Whether the integer [v] is read back as the double [d] (a positive
    integer): it lies within half a unit in the last place of [d], the ends
    included when the mantissa of [d] is even.  Everything is taken four
    times, to stay in the integers. *)
Definition reads_as (d v : Z) : bool :=
  let e := double_exponent d in
  let m := Z.shiftr d e in
  let up := (2 * 2 ^ e)%Z in
  let down := if (m =? 2 ^ 52)%Z && (0 <? e)%Z then (2 ^ e)%Z else up in
  if Z.even m
  then (4 * d - down <=? 4 * v)%Z && (4 * v <=? 4 * d + up)%Z
  else (4 * d - down <? 4 * v)%Z && (4 * v <? 4 * d + up)%Z.

(** The integer with [k] significant digits that is read back as [d], when
    there is one: the nearer to [d] of the two around it, the even one of two
    equally near.  [len] is the number of digits of [d]. *)
Definition with_digits (d : Z) (len k : nat) : option Z :=
  let scale := (10 ^ Z.of_nat (len - k))%Z in
  let below := (d / scale * scale)%Z in
  let above := (below + scale)%Z in
  match reads_as d below, reads_as d above with
  | true, true =>
      if (d - below <? above - d)%Z then Some below
      else if (above - d <? d - below)%Z then Some above
      else if Z.even (d / scale) then Some below else Some above
  | true, false => Some below
  | false, true => Some above
  | false, false => None
  end.

(** The shortest such integer, trying [k], [k] + 1, ... *)
Fixpoint shortest_from (fuel : nat) (d : Z) (len k : nat) : Z :=
  match fuel with
  | O => d
  | S fuel' =>
      match with_digits d len k with
      | Some v => v
      | None => shortest_from fuel' d len (S k)
      end
  end.

Fixpoint strip_zeros (fuel : nat) (v : Z) : Z :=
  match fuel with
  | O => v
  | S fuel' => if (v mod 10 =? 0)%Z then strip_zeros fuel' (v / 10)%Z else v
  end.

(** [Number::toString] of ECMAScript, on a positive integer-valued double:
    the digits in full below 10^21, and above it the significant digits
    with an exponent. *)
Definition positive_toString (d : Z) : string :=
  let len := String.length (string_of_Z d) in
  let v := shortest_from len d len 1 in
  let n := String.length (string_of_Z v) in
  if (n <=? 21)%nat then string_of_Z v
  else
    match string_of_Z (strip_zeros n v) with
    | String first EmptyString =>
        (String first EmptyString ++ "e+" ++ string_of_Z (Z.of_nat (n - 1)))%string
    | String first rest =>
        (String first EmptyString ++ "." ++ rest
           ++ "e+" ++ string_of_Z (Z.of_nat (n - 1)))%string
    | EmptyString => EmptyString
    end.

Definition Number_toString (z : Z) : string :=
  let print (z : Z) :=
    let d := nearest_double z in
    if (2 ^ 1024 <=? d)%Z then "Infinity" else positive_toString d in
  if (z =? 0)%Z then "0"
  else if (z <? 0)%Z then ("-" ++ print (- z)%Z)%string
  else print z.

(** [`${v}`]; in the text of an array an element that is undefined leaves
    nothing between the commas. *)
Fixpoint template (v : value) : string :=
  match v with
  | VUndefined => "undefined"
  | VNumber z => Number_toString z
  | VString s => s
  | VError m => ("Error: " ++ m)%string
  | VArray l =>
      String.concat ","
        (map (fun x => match x with
                       | VUndefined => EmptyString
                       | _ => template x
                       end) l)
  end.

(** ** Strings *)

Fixpoint take (n : nat) (s : string) : string :=
  match n, s with
  | S n', String c s' => String c (take n' s')
  | _, _ => EmptyString
  end.

Fixpoint drop (n : nat) (s : string) : string :=
  match n, s with
  | S n', String _ s' => drop n' s'
  | _, _ => s
  end.

(** [s.startsWith(search)] *)
Definition startsWith (s search : string) : bool := String.prefix search s.

(** [s.indexOf(search)], counting from [from]: the position of the first
    occurrence, or -1. *)
Fixpoint indexOf_from (from : Z) (s search : string) : Z :=
  if String.prefix search s then from
  else match s with
       | EmptyString => (-1)%Z
       | String _ s' => indexOf_from (from + 1)%Z s' search
       end.

Definition indexOf (s search : string) : Z := indexOf_from 0%Z s search.

(** A relative index of [slice]: negative ones count from the end, and
    everything is clamped to the string. *)
Definition relative_index (len i : Z) : Z :=
  if (i <? 0)%Z then Z.max (len + i) 0 else Z.min i len.

(** [s.slice(start, end)]; [None] is an omitted [end]. *)
Definition slice (s : string) (start : Z) (end_ : option Z) : string :=
  let len := Z.of_nat (String.length s) in
  let from := relative_index len start in
  let to := match end_ with
            | Some e => relative_index len e
            | None => len
            end in
  take (Z.to_nat (Z.max (to - from) 0)) (drop (Z.to_nat from) s).

(** The characters [encodeURIComponent] leaves alone: letters, digits and
    [- _ . ! ~ * ' ( )]. *)
Definition uriUnreserved (c : ascii) : bool :=
  let n := nat_of_ascii c in
  ((65 <=? n) && (n <=? 90))%nat
  || ((97 <=? n) && (n <=? 122))%nat
  || ((48 <=? n) && (n <=? 57))%nat
  || existsb (Ascii.eqb c)
       (list_ascii_of_string "-_.!~*'()").

Definition hexDigit (n : nat) : ascii :=
  match n with
  | 0 => "0" | 1 => "1" | 2 => "2" | 3 => "3" | 4 => "4" | 5 => "5"
  | 6 => "6" | 7 => "7" | 8 => "8" | 9 => "9" | 10 => "A" | 11 => "B"
  | 12 => "C" | 13 => "D" | 14 => "E" | _ => "F"
  end%char.

(** [encodeURIComponent(s)]: every byte of the UTF-8 form of [s] that is
    not unreserved becomes [%XX], in upper-case hexadecimal. *)
Fixpoint encodeURIComponent (s : string) : string :=
  match s with
  | EmptyString => EmptyString
  | String c s' =>
      if uriUnreserved c then String c (encodeURIComponent s')
      else String "%" (String (hexDigit (nat_of_ascii c / 16))
                         (String (hexDigit (nat_of_ascii c mod 16))
                            (encodeURIComponent s')))
  end.

(** The replacement text of [String.prototype.replace] (ECMAScript's
    GetSubstitution) for a pattern without capture groups: [$$] is a
    dollar, [$&] the match, [$`] what precedes it, [$'] what follows it;
    any other dollar stands for itself. *)
Fixpoint getSubstitution (matched before after replacement : string)
  : string :=
  match replacement with
  | EmptyString => EmptyString
  | String c r =>
      if Ascii.eqb c "$" then
        match r with
        | String d r' =>
            if Ascii.eqb d "$" then
              String "$" (getSubstitution matched before after r')
            else if Ascii.eqb d "&" then
              (matched ++ getSubstitution matched before after r')%string
            else if Ascii.eqb d "`" then
              (before ++ getSubstitution matched before after r')%string
            else if Ascii.eqb d "'" then
              (after ++ getSubstitution matched before after r')%string
            else String c (getSubstitution matched before after r)
        | EmptyString => String c EmptyString
        end
      else String c (getSubstitution matched before after r)
  end.

(** [s.replace(/^literal/, replacement)]: the pattern matches only at the
    start of [s], and only the text [literal]. *)
Definition replace_at_start (s literal replacement : string) : string :=
  if String.prefix literal s then
    let after := drop (String.length literal) s in
    (getSubstitution literal "" after replacement ++ after)%string
  else s.

(** ** Paths (the POSIX [path] module of Node) *)

(** [s.split("/")] *)
Fixpoint split_slash (s : string) : list string :=
  match s with
  | EmptyString => [EmptyString]
  | String c s' =>
      if Ascii.eqb c "/" then EmptyString :: split_slash s'
      else match split_slash s' with
           | segment :: segments => String c segment :: segments
           | [] => [String c EmptyString]
           end
  end.

(** A segment that normalising leaves in place: not empty, not [.] and not
    [..]. *)
Definition plain (segment : string) : bool :=
  negb (String.eqb segment "") && negb (String.eqb segment ".")
  && negb (String.eqb segment "..").

(** [normalizeString]: empty segments and [.] are dropped; [..] removes the
    segment before it, when there is one that is not itself [..], and is
    otherwise kept only if the path may climb above its start.  [res] holds
    the segments kept so far, the last one first. *)
Fixpoint normalizeSegments (allowAboveRoot : bool) (res : list string)
         (segments : list string) : list string :=
  match segments with
  | [] => rev res
  | segment :: segments' =>
      if String.eqb segment "" || String.eqb segment "." then
        normalizeSegments allowAboveRoot res segments'
      else if String.eqb segment ".." then
        match res with
        | last :: res' =>
            if String.eqb last ".." then
              normalizeSegments allowAboveRoot
                (if allowAboveRoot then ".." :: res else res) segments'
            else normalizeSegments allowAboveRoot res' segments'
        | [] =>
            normalizeSegments allowAboveRoot
              (if allowAboveRoot then [".."] else []) segments'
        end
      else normalizeSegments allowAboveRoot (segment :: res) segments'
  end.

(** Whether the last character of a path is a slash. *)
Definition trailingSeparator (path : string) : bool :=
  String.eqb (List.last (split_slash path) "x") "".

(** [path.normalize(path)] *)
Definition path_normalize (path : string) : string :=
  match path with
  | EmptyString => "."
  | _ =>
      let isAbsolute := startsWith path "/" in
      let res := String.concat "/" (normalizeSegments (negb isAbsolute) []
                                                      (split_slash path)) in
      match res with
      | EmptyString =>
          if isAbsolute then "/"
          else if trailingSeparator path then "./" else "."
      | _ =>
          let res := if trailingSeparator path then (res ++ "/")%string
                     else res in
          if isAbsolute then ("/" ++ res)%string else res
      end
  end.

(** [path.join(...args)]: the arguments that are not empty, joined with
    slashes and normalised. *)
Definition path_join (args : list string) : string :=
  match filter (fun arg => negb (String.eqb arg "")) args with
  | [] => "."
  | parts => path_normalize (String.concat "/" parts)
  end.

End JS.

Import JS.

(* ===================================================================== *)
(** * Promises *)
(* ===================================================================== *)

(** What the promise returned by one call of a transform does. *)
Inductive settlement : Type :=
| Fulfils (v : value)
| Rejects (e : value)
| NeverSettles.

(** A promise, seen from the end of time. *)
Inductive promise (A : Type) : Type :=
| Fulfilled (t : nat) (v : A)
| Rejected (t : nat) (e : value)
| Pending.

Arguments Fulfilled {A} t v.
Arguments Rejected {A} t e.
Arguments Pending {A}.

(** The promise a call made at [now] returns, when it takes [d] instants. *)
Definition settle (now d : nat) (s : settlement) : promise value :=
  match s with
  | Fulfils v => Fulfilled (now + d) v
  | Rejects e => Rejected (now + d) e
  | NeverSettles => Pending
  end.

(** The earliest rejection among [ps]; of two at the same instant, the one
    of the earlier element. *)
Fixpoint first_rejection (ps : list (promise value)) : option (nat * value) :=
  match ps with
  | [] => None
  | Rejected t e :: ps' =>
      match first_rejection ps' with
      | Some (t', e') => if (t <=? t')%nat then Some (t, e) else Some (t', e')
      | None => Some (t, e)
      end
  | _ :: ps' => first_rejection ps'
  end.

(** The join of promises none of which rejects: fulfilled with all the
    values, in the order of [ps], once the last one is. *)
Fixpoint join (now : nat) (ps : list (promise value)) : promise (list value) :=
  match ps with
  | [] => Fulfilled now []
  | Fulfilled t v :: ps' =>
      match join now ps' with
      | Fulfilled t' vs => Fulfilled (Nat.max t t') (v :: vs)
      | other => other
      end
  | Rejected t e :: _ => Rejected t e
  | Pending :: _ => Pending
  end.

(** [Promise.all(ps)], called at [now]: rejected as soon as one of [ps] is,
    with that reason; otherwise fulfilled when all are. *)
Definition Promise_all (now : nat) (ps : list (promise value))
  : promise (list value) :=
  match first_rejection ps with
  | Some (t, e) => Rejected t e
  | None => join now ps
  end.

(* ===================================================================== *)
(** * [promiseEach] (index.js, lines 35-69) *)
(* ===================================================================== *)

(** One call of the transform, as the run records it. *)
Record invocation : Type := {
  inv_chunk : nat;               (* which call of [promiseEach] made it *)
  inv_number : nat;              (* how many calls were made before it *)
  inv_args : list value;         (* the arguments it was called with *)
  inv_start : nat;               (* the instant of the call *)
  inv_promise : promise value    (* the promise it returned *)
}.

(** What a run of [promiseEach] leaves behind: the promise it returned
    ([None] when the fuel did not suffice to tell), the contents of the
    caller's array afterwards, and the calls of the transform it made. *)
Record run : Type := {
  outcome : option (promise (list value));
  remaining : list value;
  calls : list invocation
}.

(** [if(!maxConcurrent) maxConcurrent = 1;] *)
Definition default_limit (maxConcurrent : option Z) : Z :=
  if falsy maxConcurrent then 1%Z
  else match maxConcurrent with Some z => z | None => 1%Z end.

(** The argument list of the call made for [param]:
    [func.apply(null, param)] for an array, [func(param)] otherwise. *)
Definition arguments_of (param : value) : list value :=
  if isArray param
  then match param with VArray l => l | _ => [] end
  else [param].

Section ConcurrentBatchRunner.

Variable func : list value -> settlement.
Variable latency : nat -> nat.

(** [params.map(param => ...)], made at [now] by chunk [chunk], when [n]
    calls were made before. *)
Fixpoint invoke_all (chunk n now : nat) (params : list value)
  : list invocation :=
  match params with
  | [] => []
  | param :: params' =>
      {| inv_chunk := chunk;
         inv_number := n;
         inv_args := arguments_of param;
         inv_start := now;
         inv_promise := settle now (latency n) (func (arguments_of param)) |}
      :: invoke_all chunk (S n) now params'
  end.

Fixpoint promiseEach (fuel : nat) (chunk n now : nat)
         (parameters : list value) (maxConcurrent : option Z) : run :=
  match fuel with
  | O => {| outcome := None; remaining := parameters; calls := [] |}
  | S fuel' =>
      let maxConcurrent := default_limit maxConcurrent in
      let '(params, parameters) := splice0 parameters maxConcurrent in
      let invocations := invoke_all chunk n now params in
      match Promise_all now (map inv_promise invocations) with
      | Fulfilled t results =>
          let flatResults := JS.concat [] results in
          if (List.length parameters =? 0)%nat then
            {| outcome := Some (Fulfilled t flatResults);
               remaining := parameters;
               calls := invocations |}
          else
            let rest := promiseEach fuel' (S chunk) (n + List.length params)
                                    t parameters (Some maxConcurrent) in
            {| outcome :=
                 match outcome rest with
                 | Some (Fulfilled t' otherResults) =>
                     Some (Fulfilled t'
                             (JS.concat flatResults [VArray otherResults]))
                 | other => other
                 end;
               remaining := remaining rest;
               calls := invocations ++ calls rest |}
      | Rejected t e =>
          {| outcome := Some (Rejected t e);
             remaining := parameters;
             calls := invocations |}
      | Pending =>
          {| outcome := Some Pending;
             remaining := parameters;
             calls := invocations |}
      end
  end.

End ConcurrentBatchRunner.

(** A call is pending at [instant] when it was made and its promise has not
    settled yet. *)
Definition pending_at (instant : nat) (i : invocation) : bool :=
  (inv_start i <=? instant)%nat &&
  match inv_promise i with
  | Fulfilled t _ => (instant <? t)%nat
  | Rejected t _ => (instant <? t)%nat
  | Pending => true
  end.

Definition in_flight (instant : nat) (cs : list invocation) : nat :=
  List.length (filter (pending_at instant) cs).

(* ===================================================================== *)
(** * The network: [httpsGetAsync] (index.js, lines 11-22) *)
(* ===================================================================== *)

(** The argument of [https.get]: an options object, or a URL as a string. *)
Inductive request : Type :=
| Options (hostname path : string) (headers : list (string * string))
| Url (href : string).

(** [options.hostname] and [options.path]: properties of the options object;
    a string has neither, and reading them gives [undefined]. *)
Definition hostname_of (options : request) : value :=
  match options with
  | Options hostname _ _ => VString hostname
  | Url _ => VUndefined
  end.

Definition path_of (options : request) : value :=
  match options with
  | Options _ path _ => VString path
  | Url _ => VUndefined
  end.

(** What gunzip makes of a response body: the text of its [data] chunks,
    one after the other (none at all when the text is empty), or an
    error. *)
Inductive inflated : Type :=
| Data (text : string)
| Invalid (err : value).

Record response : Type := {
  statusCode : Z;
  gunzip : inflated
}.

(** The message of the error [httpsGetAsync] rejects with. *)
Definition get_error (options : request) (status : Z) : value :=
  VError ("GET " ++ template (hostname_of options)
                 ++ template (path_of options)
                 ++ " returned " ++ template (VNumber status)).

Section Pipeline.

(** The outside world: the answer of the network to a request ([None]:
    no answer ever comes), the successive matches of the regular
    expression of [scrapeMostDepended] in a text (captures 2 and 3 of
    each), and the entry names of a tar stream with the error that ends
    it, if it is malformed. *)
Variable https_get : request -> option response.
Variable re_exec_all : string -> list (string * string).
Variable tar_headers : string -> list string * option value.

(** The promise of [httpsGetAsync(options)]: the response, or the error. *)
Definition httpsGetAsync (options : request) : option (value + response) :=
  match https_get options with
  | None => None
  | Some response =>
      if negb (statusCode response =? 200)%Z
      then Some (inl (get_error options (statusCode response)))
      else Some (inr response)
  end.

(** ** [scrapeMostDepended] (lines 75-117) *)

Definition scrape_options (offset : value) : request :=
  Options "www.npmjs.com"
          ("/browse/depended?offset=" ++ template offset)
          [("accept-encoding", "gzip,deflate")].

(** [buffer] starts out undefined, so [buffer += chunk] prefixes the text
    with the word "undefined".  When the body is empty there is no [data]
    event and [buffer] is still undefined at the [end] event:
    [buffer.toString] throws inside the handler, and the promise is neither
    resolved nor rejected. *)
Definition scrapeMostDepended (offset : value) : settlement :=
  match httpsGetAsync (scrape_options offset) with
  | None => NeverSettles
  | Some (inl err) => Rejects err
  | Some (inr response) =>
      match gunzip response with
      | Invalid err => Rejects err
      | Data EmptyString => NeverSettles
      | Data text =>
          let body := ("undefined" ++ text)%string in
          let mostDepended :=
            map (fun m => VArray [VString (fst m); VString (snd m)])
                (re_exec_all body) in
          Fulfils (VArray mostDepended)
      end
  end.

(** ** [downloadAndExtractPackage] (lines 122-168) *)

(** [org] and [name], lines 123-138. *)
Definition org_and_name (pkg : string) : string * string :=
  if startsWith pkg "@" then
    let index := (indexOf pkg "/" + 1)%Z in
    (slice pkg 0 (Some index), slice pkg index None)
  else ("", pkg).

(** The path of the tarball below the registry host. *)
Definition tarball_path (pkg : string) (version : value) : string :=
  let '(org, name) := org_and_name pkg in
  (org ++ name ++ "/-/" ++ name ++ "-" ++ template version ++ ".tgz")%string.

Definition tarball_url (pkg : string) (version : value) : string :=
  ("https://registry.npmjs.org/" ++ tarball_path pkg version)%string.

(** [folderName], line 127. *)
Definition folderName (pkg : string) : string := encodeURIComponent pkg.

(** The [map] option of [tar.extract], lines 156-159. *)
Definition map_header (pkg : string) (header_name : string) : string :=
  replace_at_start header_name "package" (folderName pkg).

(** Where [tar.extract('./packages', ...)] writes an entry.  tar-fs, the
    library behind it, resolves the name the [map] option gives against the
    root as [path.join(cwd, path.join('/', header.name))]: the name cannot
    climb out of the root, and the result is printed without the leading
    [./] of the root. *)
Definition written_to (pkg : string) (header_name : string) : string :=
  path_join ["./packages"; path_join ["/"; map_header pkg header_name]].

Definition downloadAndExtractPackage (pkg : string) (version : value)
  : settlement :=
  match httpsGetAsync (Url (tarball_url pkg version)) with
  | None => NeverSettles
  | Some (inl err) => Rejects err
  | Some (inr response) =>
      match gunzip response with
      | Invalid err => Rejects err
      | Data tarball =>
          match snd (tar_headers tarball) with
          | Some err => Rejects err
          | None => Fulfils (VString pkg)
          end
      end
  end.

(** ** The two functions as [promiseEach] calls them

    A call passes a list of arguments; a parameter that was not passed is
    [undefined].  The transforms of [promiseEach] are functions that return
    a promise; [pkg.startsWith] on a [pkg] that is not a string throws
    instead, which the last case below can only approximate, by a rejected
    promise.  That case is never reached from [downloadPackages], whose
    entries are pairs of strings ([matches.slice(2, 4)]). *)
Definition scrape_transform (args : list value) : settlement :=
  scrapeMostDepended (nth 0 args VUndefined).

Definition download_transform (args : list value) : settlement :=
  match nth 0 args VUndefined with
  | VString pkg => downloadAndExtractPackage pkg (nth 1 args VUndefined)
  | _ => Rejects (VError "TypeError: pkg.startsWith is not a function")
  end.

(** ** [downloadPackages] (lines 170-183) *)

(** [for(let i = 0; i < count; i += 36) offsets.push(i)], started at [i].
    The fuel is the number of iterations allowed. *)
Fixpoint offsets_from (fuel : nat) (i count : Z) : list Z :=
  match fuel with
  | O => []
  | S fuel' =>
      if (i <? count)%Z then i :: offsets_from fuel' (i + 36)%Z count
      else []
  end.

(** The loop runs at most [count] times. *)
Definition offsets (count : Z) : list Z :=
  offsets_from (Z.to_nat count) 0%Z count.

(** What the caller of [downloadPackages] sees. *)
Inductive signal : Type :=
| Success (t : nat)               (* [callback()] *)
| Failure (t : nat) (err : value) (* [callback(err)] *)
| Silence.                        (* the callback is never called *)

(** A run of [downloadPackages]: the listing stage, the array handed to
    the extraction stage and that stage (when the listing stage gets that
    far), and the call of the callback ([None]: not enough fuel). *)
Record pipeline : Type := {
  listing : run;
  toBeDownloaded : option (list value);
  extraction : option run;
  callback : option signal
}.

Variable listing_latency extraction_latency : nat -> nat.

Definition downloadPackages (fuel : nat) (now : nat) (count : Z) : pipeline :=
  let offsets := map VNumber (offsets count) in
  let stage1 := promiseEach scrape_transform listing_latency
                            fuel 0 0 now offsets (Some 3%Z) in
  match outcome stage1 with
  | Some (Fulfilled t mostDepended) =>
      let '(toBeDownloaded, _) := splice0 mostDepended count in
      let stage2 := promiseEach download_transform extraction_latency
                                fuel 0 0 t toBeDownloaded (Some 3%Z) in
      {| listing := stage1;
         toBeDownloaded := Some toBeDownloaded;
         extraction := Some stage2;
         callback := match outcome stage2 with
                     | Some (Fulfilled t' _) => Some (Success t')
                     | Some (Rejected t' err) => Some (Failure t' err)
                     | Some Pending => Some Silence
                     | None => None
                     end |}
  | Some (Rejected t err) =>
      {| listing := stage1; toBeDownloaded := None; extraction := None;
         callback := Some (Failure t err) |}
  | Some Pending =>
      {| listing := stage1; toBeDownloaded := None; extraction := None;
         callback := Some Silence |}
  | None =>
      {| listing := stage1; toBeDownloaded := None; extraction := None;
         callback := None |}
  end.

End Pipeline.

(* ===================================================================== *)
(** * Notions the statements use *)
(* ===================================================================== *)

(** The sequence one call of the transform contributes to the result: the
    elements of the array its promise is fulfilled with (a value that is not
    an array counts as a sequence of one). *)
Definition sequence_of (s : settlement) : list value :=
  match s with
  | Fulfils v => concat_item v
  | _ => []
  end.

Definition fulfils (s : settlement) : Prop := exists v, s = Fulfils v.

(** A path all of whose segments are plain: no empty segment (so no slash
    at either end and no doubled slash), no [.] and no [..]. *)
Definition plain_path (path : string) : bool :=
  forallb plain (split_slash path).

(** The transform applied to one parameter of the array, the way
    [promiseEach] calls it. *)
Definition applied (func : list value -> settlement) (param : value)
  : settlement :=
  func (arguments_of param).

(** The least integer not below [a / b]. *)
Definition ceil_div (a b : Z) : Z := (- ((- a) / b))%Z.

(** Two transforms to try the runner on: one that is fulfilled with the
    array of its arguments, and one that in addition is rejected on the
    numbers below zero. *)
Definition echo (args : list value) : settlement := Fulfils (VArray args).

Definition echo_nonnegative (args : list value) : settlement :=
  match args with
  | [VNumber z] =>
      if (z <? 0)%Z then Rejects (VError ("negative: " ++ string_of_Z z))
      else Fulfils (VArray args)
  | _ => Fulfils (VArray args)
  end.

(** A listing page with two packages on it, and an archive with one entry,
    for a world to try the pipeline in. *)
Definition two_matches (_ : string) : list (string * string) :=
  [("lodash", "4.17.0"); ("@angular/core", "2.0.0")].

Definition one_entry (_ : string) : list string * option value :=
  (["package/index.js"], None).

(** A world in which every request is answered with status 200 and the
    body [body]. *)
Definition always_page (body : string) (_ : request) : option response :=
  Some {| statusCode := 200%Z; gunzip := Data body |}.

(** A world in which every request is answered with status [status]. *)
Definition always_status (status : Z) (_ : request) : option response :=
  Some {| statusCode := status; gunzip := Data "" |}.

(* ===================================================================== *)
(** * Lemmas on the built-ins *)
(* ===================================================================== *)

Section SpliceFacts.

Context {A : Type}.
Implicit Types (l : list A) (m : Z).

Lemma splice0_parts l m :
  fst (splice0 l m) ++ snd (splice0 l m) = l.
Proof. unfold splice0; cbn [fst snd]. apply firstn_skipn. Qed.

Lemma splice0_length_fst l m :
  Z.of_nat (List.length (fst (splice0 l m)))
  = Z.min (Z.max m 0) (Z.of_nat (List.length l)).
Proof.
  unfold splice0; cbn [fst]. rewrite length_firstn. lia.
Qed.

Lemma splice0_length_snd l m :
  List.length (snd (splice0 l m))
  = (List.length l - List.length (fst (splice0 l m)))%nat.
Proof.
  unfold splice0; cbn [fst snd]. rewrite length_skipn, length_firstn. lia.
Qed.

(** With a positive count, [splice] takes something off a non-empty array. *)
Lemma splice0_shrinks l m :
  (1 <= m)%Z -> l <> [] ->
  (List.length (snd (splice0 l m)) < List.length l)%nat.
Proof.
  intros Hm Hl. rewrite splice0_length_snd.
  pose proof (splice0_length_fst l m) as H.
  destruct l as [|a l]; [congruence|]. cbn [List.length] in *. lia.
Qed.

Lemma splice0_firstn l m :
  splice0 l m = (firstn (List.length (fst (splice0 l m))) l,
                 skipn (List.length (fst (splice0 l m))) l).
Proof.
  unfold splice0 at 1. cbn [fst].
  assert (E : List.length (fst (splice0 l m))
              = Z.to_nat (Z.min (Z.max m 0) (Z.of_nat (List.length l)))).
  { pose proof (splice0_length_fst l m). lia. }
  now rewrite E.
Qed.

(** A count that is not positive takes nothing. *)
Lemma splice0_nonpositive l m : (m <= 0)%Z -> splice0 l m = ([], l).
Proof.
  intros Hm. unfold splice0.
  replace (Z.to_nat _) with 0%nat by lia. reflexivity.
Qed.

Lemma splice0_truncates l m :
  fst (splice0 l m) = firstn (Z.to_nat m) l.
Proof.
  unfold splice0; cbn [fst].
  destruct (Z.le_gt_cases (Z.max m 0) (Z.of_nat (List.length l))) as [H|H].
  - f_equal. lia.
  - rewrite !firstn_all2 by lia. reflexivity.
Qed.

End SpliceFacts.

Lemma concat_nil_l (vs : list value) :
  JS.concat [] vs = flat_map concat_item vs.
Proof. reflexivity. Qed.

Lemma concat_array (xs ys : list value) :
  JS.concat xs [VArray ys] = xs ++ ys.
Proof. unfold JS.concat; cbn. now rewrite app_nil_r. Qed.

Lemma default_limit_idem (mc : option Z) :
  default_limit (Some (default_limit mc)) = default_limit mc.
Proof.
  destruct mc as [z|]; cbn; [|reflexivity].
  unfold default_limit; cbn. destruct (z =? 0)%Z eqn:E; cbn; [reflexivity|].
  now rewrite E.
Qed.

Lemma default_limit_pos (m : Z) : (1 <= m)%Z -> default_limit (Some m) = m.
Proof.
  intros H. unfold default_limit; cbn.
  destruct (Z.eqb_spec m 0); [lia|reflexivity].
Qed.

(* ===================================================================== *)
(** * Lemmas on [Promise.all] *)
(* ===================================================================== *)

Lemma first_rejection_some ps t e :
  first_rejection ps = Some (t, e) ->
  In (Rejected t e) ps /\
  forall t' e', In (Rejected t' e') ps -> (t <= t')%nat.
Proof.
  revert t e. induction ps as [|p ps IH]; intros t e H; [discriminate|].
  destruct p as [tp v|tp ep|]; cbn in H.
  - destruct (IH _ _ H) as [Hin Hmin]. split; [now right|].
    intros t' e' [Heq|Hin']; [discriminate|eauto].
  - destruct (first_rejection ps) as [[t1 e1]|] eqn:E.
    + destruct (IH _ _ eq_refl) as [Hin Hmin].
      destruct (Nat.leb_spec tp t1); inversion H; subst.
      * split; [now left|]. intros t' e' [Heq|Hin'].
        -- inversion Heq; lia.
        -- specialize (Hmin _ _ Hin'). lia.
      * split; [now right|]. intros t' e' [Heq|Hin'].
        -- inversion Heq; lia.
        -- eauto.
    + inversion H; subst. split; [now left|].
      intros t' e' [Heq|Hin']; [inversion Heq; lia|].
      exfalso. clear -E Hin'. induction ps as [|q ps IH]; [easy|].
      destruct Hin' as [->|Hin'].
      * cbn in E. destruct (first_rejection ps) as [[? ?]|];
          [destruct (_ <=? _)%nat|]; discriminate.
      * destruct q; cbn in E; auto.
        destruct (first_rejection ps) as [[? ?]|];
          [destruct (_ <=? _)%nat|]; discriminate.
  - destruct (IH _ _ H) as [Hin Hmin]. split; [now right|].
    intros t' e' [Heq|Hin']; [discriminate|eauto].
Qed.

Lemma first_rejection_none ps :
  first_rejection ps = None -> forall t e, ~ In (Rejected t e) ps.
Proof.
  induction ps as [|p ps IH]; intros H t e; [easy|].
  destruct p as [tp v|tp ep|]; cbn in H.
  - intros [Heq|Hin]; [discriminate|]. exact (IH H _ _ Hin).
  - destruct (first_rejection ps) as [[? ?]|];
      [destruct (_ <=? _)%nat|]; discriminate.
  - intros [Heq|Hin]; [discriminate|]. exact (IH H _ _ Hin).
Qed.

(** A fulfilled join: every promise is fulfilled, not later than the join,
    and the values come in the order of the promises. *)
Lemma join_fulfilled now ps t vs :
  join now ps = Fulfilled t vs ->
  (now <= t)%nat /\
  Forall2 (fun p v => exists tp, p = Fulfilled tp v /\ (tp <= t)%nat) ps vs.
Proof.
  revert t vs. induction ps as [|p ps IH]; intros t vs H; cbn in H.
  - inversion H; subst. split; [lia|constructor].
  - destruct p as [tp v|tp ep|]; try discriminate.
    destruct (join now ps) as [t' vs'| |] eqn:E; try discriminate.
    inversion H; subst. destruct (IH _ _ eq_refl) as [Hnow Hall].
    split; [lia|]. constructor.
    + exists tp. split; [reflexivity|lia].
    + eapply Forall2_impl; [|exact Hall].
      intros p v' (tq & -> & Hle). exists tq. split; [reflexivity|lia].
Qed.

Lemma Promise_all_fulfilled now ps t vs :
  Promise_all now ps = Fulfilled t vs ->
  (now <= t)%nat /\
  Forall2 (fun p v => exists tp, p = Fulfilled tp v /\ (tp <= t)%nat) ps vs.
Proof.
  unfold Promise_all. destruct (first_rejection ps) as [[? ?]|]; [discriminate|].
  apply join_fulfilled.
Qed.

Lemma Promise_all_rejected now ps t e :
  Promise_all now ps = Rejected t e ->
  In (Rejected t e) ps /\
  forall t' e', In (Rejected t' e') ps -> (t <= t')%nat.
Proof.
  unfold Promise_all. destruct (first_rejection ps) as [[t1 e1]|] eqn:E.
  - intros H; inversion H; subst. now apply first_rejection_some.
  - intros H. exfalso. pose proof (first_rejection_none _ E) as Hno.
    clear E. revert t e H. induction ps as [|p ps IH]; intros t e H; cbn in H.
    + discriminate.
    + destruct p as [tp v|tp ep|]; try discriminate.
      * destruct (join now ps) eqn:Ej; try discriminate.
        inversion H; subst. eapply IH; [|reflexivity].
        intros t' e' Hin. eapply Hno. right. exact Hin.
      * eapply Hno. left. reflexivity.
Qed.

Lemma Promise_all_pending now ps :
  Promise_all now ps = Pending -> forall t e, ~ In (Rejected t e) ps.
Proof.
  unfold Promise_all. destruct (first_rejection ps) as [[? ?]|] eqn:E;
    [discriminate|]. intros _. now apply first_rejection_none.
Qed.

(** When every promise is fulfilled, so is [Promise.all], with the values in
    order. *)
Lemma Promise_all_of_fulfilled now ps vs :
  Forall2 (fun p v => exists tp, p = Fulfilled tp v) ps vs ->
  exists t, Promise_all now ps = Fulfilled t vs.
Proof.
  intros H. unfold Promise_all.
  assert (Hn : first_rejection ps = None).
  { induction H as [|p v ps vs (tp & ->) _ IH]; [reflexivity|exact IH]. }
  rewrite Hn. clear Hn.
  induction H as [|p v ps vs (tp & ->) _ [t IH]]; cbn.
  - now exists now.
  - rewrite IH. now eexists.
Qed.

(* ===================================================================== *)
(** * Lemmas on [promiseEach] *)
(* ===================================================================== *)

Section RunnerFacts.

Variable func : list value -> settlement.
Variable latency : nat -> nat.

Abbreviation invoke_all := (invoke_all func latency).
Abbreviation promiseEach := (promiseEach func latency).
Abbreviation applied := (applied func).

Lemma invoke_all_length k n now ps :
  List.length (invoke_all k n now ps) = List.length ps.
Proof. revert n; induction ps; intros n; cbn; [reflexivity|now rewrite IHps]. Qed.

Lemma invoke_all_args k n now ps :
  map inv_args (invoke_all k n now ps) = map arguments_of ps.
Proof. revert n; induction ps; intros n; cbn; [reflexivity|now rewrite IHps]. Qed.

Lemma invoke_all_In k n now ps c :
  In c (invoke_all k n now ps) ->
  inv_chunk c = k /\ inv_start c = now /\
  inv_promise c = settle now (latency (inv_number c)) (func (inv_args c)).
Proof.
  revert n; induction ps as [|p ps IH]; intros n; cbn; [easy|].
  intros [<-|H]; [cbn; auto|eauto].
Qed.

(** The values [Promise.all] delivers for a chunk are what the transform
    yields on the chunk's parameters, in their order. *)
Lemma invoke_all_results k n now ps t results :
  Forall2 (fun p v => exists tp, p = Fulfilled tp v /\ (tp <= t)%nat)
          (map inv_promise (invoke_all k n now ps)) results ->
  Forall fulfils (map applied ps) /\
  flat_map concat_item results = flat_map (fun x => sequence_of (applied x)) ps.
Proof.
  revert n results; induction ps as [|p ps IH]; intros n results H; cbn in H.
  - inversion H; subst. split; [constructor|reflexivity].
  - inversion H as [|q v qs vs (tp & Hq & _) Hrest]; subst.
    destruct (IH _ _ Hrest) as [Hall Hflat].
    unfold settle in Hq. fold (applied p) in Hq.
    destruct (applied p) as [w| |] eqn:E; try discriminate.
    inversion Hq; subst. split.
    + cbn. constructor; [rewrite E; now exists v|exact Hall].
    + cbn. rewrite E. cbn. now rewrite Hflat.
Qed.

Lemma invoke_all_fulfils k n now ps :
  Forall fulfils (map applied ps) ->
  exists vs,
    Forall2 (fun p v => exists tp, p = Fulfilled tp v)
            (map inv_promise (invoke_all k n now ps)) vs.
Proof.
  revert n; induction ps as [|p ps IH]; intros n H; cbn.
  - exists []. constructor.
  - inversion H as [|s ss [v Hv] Hrest]; subst.
    destruct (IH (S n) Hrest) as [vs Hvs]. exists (v :: vs).
    constructor; [|exact Hvs]. unfold applied in Hv. rewrite Hv. cbn.
    now eexists.
Qed.

Lemma promiseEach_step fuel k n now parameters mc :
  promiseEach (S fuel) k n now parameters mc =
  let m := default_limit mc in
  let params := fst (splice0 parameters m) in
  let left := snd (splice0 parameters m) in
  let invocations := invoke_all k n now params in
  match Promise_all now (map inv_promise invocations) with
  | Fulfilled t results =>
      if (List.length left =? 0)%nat then
        {| outcome := Some (Fulfilled t (JS.concat [] results));
           remaining := left; calls := invocations |}
      else
        let rest := promiseEach fuel (S k) (n + List.length params) t left
                                (Some m) in
        {| outcome :=
             match outcome rest with
             | Some (Fulfilled t' otherResults) =>
                 Some (Fulfilled t'
                         (JS.concat (JS.concat [] results)
                                    [VArray otherResults]))
             | other => other
             end;
           remaining := remaining rest;
           calls := invocations ++ calls rest |}
  | Rejected t e =>
      {| outcome := Some (Rejected t e); remaining := left;
         calls := invocations |}
  | Pending =>
      {| outcome := Some Pending; remaining := left; calls := invocations |}
  end.
Proof. reflexivity. Qed.

(** Case analysis on one call of [promiseEach]. *)
Ltac step fuel IH :=
  rewrite promiseEach_step; cbv zeta;
  match goal with
  | |- context [Promise_all ?now ?ps] =>
      let Hall := fresh "Hall" in
      destruct (Promise_all now ps) as [?t ?results|?t ?e|] eqn:Hall;
      [ match goal with
        | |- context [(List.length ?l =? 0)%nat] =>
            let Hlen := fresh "Hlen" in
            destruct (Nat.eqb_spec (List.length l) 0) as [Hlen|Hlen]
        end
      | | ]
  end; cbn [outcome remaining calls].

(** The calls made are the calls for a prefix of the array, in order, and
    what remains in the array is the rest of it. *)
Lemma promiseEach_consumes fuel k n now parameters mc :
  exists consumed,
    parameters = consumed
                 ++ remaining (promiseEach fuel k n now parameters mc) /\
    map inv_args (calls (promiseEach fuel k n now parameters mc))
    = map arguments_of consumed.
Proof.
  revert k n now parameters mc.
  induction fuel as [|fuel IH]; intros k n now parameters mc.
  - exists []. cbn. auto.
  - step fuel IH.
    + eexists. split; [symmetry; apply splice0_parts|apply invoke_all_args].
    + destruct (IH (S k)
                   (n + List.length (fst (splice0 parameters (default_limit mc))))%nat
                   t (snd (splice0 parameters (default_limit mc)))
                   (Some (default_limit mc))) as (consumed & Hpar & Hargs).
      exists (fst (splice0 parameters (default_limit mc)) ++ consumed).
      split.
      * rewrite <- app_assoc, <- Hpar. symmetry. apply splice0_parts.
      * rewrite !map_app, invoke_all_args. now rewrite Hargs.
    + eexists. split; [symmetry; apply splice0_parts|apply invoke_all_args].
    + eexists. split; [symmetry; apply splice0_parts|apply invoke_all_args].
Qed.

(** Calls belong to this chunk or a later one, and none starts before the
    run. *)
Lemma promiseEach_calls_after fuel k n now parameters mc c :
  In c (calls (promiseEach fuel k n now parameters mc)) ->
  (k <= inv_chunk c)%nat /\ (now <= inv_start c)%nat.
Proof.
  revert k n now parameters mc.
  induction fuel as [|fuel IH]; intros k n now parameters mc; [easy|].
  step fuel IH; intros Hin;
    try (apply invoke_all_In in Hin; lia).
  apply in_app_or in Hin. destruct Hin as [Hin|Hin].
  - apply invoke_all_In in Hin; lia.
  - apply IH in Hin. apply Promise_all_fulfilled in Hall. lia.
Qed.

(** A fulfilled run has emptied the array, and its value is what the
    transform yields on the parameters, in their order. *)
Lemma promiseEach_fulfilled fuel k n now parameters mc t vs :
  outcome (promiseEach fuel k n now parameters mc) = Some (Fulfilled t vs) ->
  remaining (promiseEach fuel k n now parameters mc) = [] /\
  Forall fulfils (map applied parameters) /\
  vs = flat_map (fun x => sequence_of (applied x)) parameters.
Proof.
  revert k n now parameters mc t vs.
  induction fuel as [|fuel IH]; intros k n now parameters mc t vs;
    [discriminate|].
  pose proof (splice0_parts parameters (default_limit mc)) as Hparts.
  step fuel IH; try discriminate.
  - intros H; inversion H; subst.
    apply Promise_all_fulfilled in Hall. destruct Hall as [_ Hall].
    apply invoke_all_results in Hall. destruct Hall as [Hful Hflat].
    apply length_zero_iff_nil in Hlen.
    rewrite Hlen, app_nil_r in Hparts. rewrite Hparts in *.
    rewrite Hlen. now rewrite concat_nil_l.
  - destruct (outcome (promiseEach fuel _ _ _ _ _))
      as [[t' other| |]|] eqn:Hrest; try discriminate.
    intros H; inversion H; subst.
    destruct (IH _ _ _ _ _ _ _ Hrest) as (Hrem & Hful' & Hother).
    apply Promise_all_fulfilled in Hall. destruct Hall as [_ Hall].
    apply invoke_all_results in Hall. destruct Hall as [Hful Hflat].
    split; [exact Hrem|]. split.
    + rewrite <- Hparts, map_app. apply Forall_app. auto.
    + rewrite concat_array, concat_nil_l, <- Hparts, flat_map_app.
      congruence.
Qed.

(** A chunk whose join is fulfilled: each of its calls was, by then. *)
Lemma chunk_fulfilled now (invocations : list invocation) t results c :
  Promise_all now (map inv_promise invocations) = Fulfilled t results ->
  In c invocations ->
  exists tp v, inv_promise c = Fulfilled tp v /\ (tp <= t)%nat.
Proof.
  intros Hall Hin. apply Promise_all_fulfilled in Hall. destruct Hall as [_ Hall].
  revert results Hall. induction invocations as [|i invs IH]; intros results Hall;
    [easy|].
  cbn in Hall. inversion Hall as [|p v ps vs (tp & Hp & Hle) Hrest]; subst.
  destruct Hin as [->|Hin]; [now exists tp, v|eauto].
Qed.

Lemma in_flight_app instant (a b : list invocation) :
  in_flight instant (a ++ b) = (in_flight instant a + in_flight instant b)%nat.
Proof. unfold in_flight. now rewrite filter_app, length_app. Qed.

Lemma in_flight_le_length instant (cs : list invocation) :
  (in_flight instant cs <= List.length cs)%nat.
Proof. apply filter_length_le. Qed.

Lemma in_flight_zero instant (cs : list invocation) :
  (forall c, In c cs -> pending_at instant c = false) ->
  in_flight instant cs = 0%nat.
Proof.
  intros H. unfold in_flight. induction cs as [|c cs IH]; [reflexivity|].
  cbn. rewrite (H c (or_introl eq_refl)). apply IH.
  intros d Hd. apply H. now right.
Qed.

Lemma filter_none {A : Type} (f : A -> bool) (l : list A) :
  (forall x, In x l -> f x = false) -> filter f l = [].
Proof.
  induction l as [|a l IH]; intros H; [reflexivity|].
  cbn. rewrite (H a (or_introl eq_refl)). apply IH.
  intros x Hx. apply H. now right.
Qed.

Lemma chunk_size_le {A : Type} (l : list A) (m : Z) :
  (List.length (fst (splice0 l m)) <= Z.to_nat m)%nat.
Proof. pose proof (splice0_length_fst l m). lia. Qed.

(** The number of pending calls never exceeds the limit. *)
Lemma promiseEach_in_flight fuel k n now parameters mc instant :
  (in_flight instant (calls (promiseEach fuel k n now parameters mc))
   <= Z.to_nat (default_limit mc))%nat.
Proof.
  revert k n now parameters mc.
  induction fuel as [|fuel IH]; intros k n now parameters mc; [cbn; lia|].
  pose proof (chunk_size_le parameters (default_limit mc)) as Hsize.
  pose proof (in_flight_le_length instant
                (invoke_all k n now (fst (splice0 parameters (default_limit mc)))))
    as Hle.
  rewrite invoke_all_length in Hle.
  step fuel IH; try lia.
  rewrite in_flight_app.
  match goal with
  | |- context [calls ?r] => set (rest := r)
  end.
  pose proof (IH (S k)
                 (n + List.length (fst (splice0 parameters (default_limit mc))))%nat
                 t (snd (splice0 parameters (default_limit mc)))
                 (Some (default_limit mc))) as Hrest.
  fold rest in Hrest. rewrite default_limit_idem in Hrest.
  destruct (Nat.lt_ge_cases instant t) as [Hbefore|Hafter].
  - rewrite (in_flight_zero instant (calls rest)); [lia|].
    intros c Hc. apply promiseEach_calls_after in Hc.
    unfold pending_at. destruct (Nat.leb_spec (inv_start c) instant); [lia|].
    reflexivity.
  - rewrite (in_flight_zero instant (invoke_all _ _ _ _)); [lia|].
    intros c Hc. destruct (chunk_fulfilled _ _ _ _ _ Hall Hc) as (tp & v & E & Htp).
    unfold pending_at. rewrite E.
    destruct (Nat.ltb_spec instant tp); [lia|]. apply andb_false_r.
Qed.

(** A call of a later chunk starts only when the calls of the earlier
    chunks have all been fulfilled. *)
Lemma promiseEach_chunk_order fuel k n now parameters mc c1 c2 :
  In c1 (calls (promiseEach fuel k n now parameters mc)) ->
  In c2 (calls (promiseEach fuel k n now parameters mc)) ->
  (inv_chunk c1 < inv_chunk c2)%nat ->
  exists t v, inv_promise c1 = Fulfilled t v /\ (t <= inv_start c2)%nat.
Proof.
  revert k n now parameters mc.
  induction fuel as [|fuel IH]; intros k n now parameters mc; [easy|].
  step fuel IH; intros H1 H2 Hlt;
    try (apply invoke_all_In in H1; apply invoke_all_In in H2; lia).
  apply in_app_or in H1. apply in_app_or in H2.
  destruct H1 as [H1|H1], H2 as [H2|H2].
  - apply invoke_all_In in H1; apply invoke_all_In in H2; lia.
  - destruct (chunk_fulfilled _ _ _ _ _ Hall H1) as (tp & v & E & Htp).
    apply promiseEach_calls_after in H2. exists tp, v. split; [exact E|lia].
  - apply promiseEach_calls_after in H1. apply invoke_all_In in H2. lia.
  - eapply IH; eassumption.
Qed.

(** A chunk holds at most [maxConcurrent] calls. *)
Lemma promiseEach_chunk_size fuel k n now parameters mc j :
  (List.length (filter (fun c => inv_chunk c =? j)%nat
                       (calls (promiseEach fuel k n now parameters mc)))
   <= Z.to_nat (default_limit mc))%nat.
Proof.
  revert k n now parameters mc.
  induction fuel as [|fuel IH]; intros k n now parameters mc; [cbn; lia|].
  pose proof (chunk_size_le parameters (default_limit mc)) as Hsize.
  pose proof (filter_length_le (fun c => inv_chunk c =? j)%nat
                (invoke_all k n now (fst (splice0 parameters (default_limit mc)))))
    as Hle.
  rewrite invoke_all_length in Hle.
  step fuel IH; try lia.
  rewrite filter_app, length_app.
  match goal with
  | |- context [calls ?r] => set (rest := r)
  end.
  pose proof (IH (S k)
                 (n + List.length (fst (splice0 parameters (default_limit mc))))%nat
                 t (snd (splice0 parameters (default_limit mc)))
                 (Some (default_limit mc))) as Hrest.
  fold rest in Hrest. rewrite default_limit_idem in Hrest.
  destruct (Nat.eq_dec j k) as [->|Hjk].
  - rewrite (filter_none _ (calls rest)); [cbn [List.length]; lia|].
    intros c Hc. apply promiseEach_calls_after in Hc.
    apply Nat.eqb_neq. lia.
  - rewrite (filter_none _ (invoke_all _ _ _ _)); [cbn [List.length]; lia|].
    intros c Hc. apply invoke_all_In in Hc. apply Nat.eqb_neq. lia.
Qed.

(** A rejected call rejects the run: with the reason of the first call of
    its chunk to be rejected, and no chunk follows. *)
Lemma promiseEach_rejection fuel k n now parameters mc c t e :
  In c (calls (promiseEach fuel k n now parameters mc)) ->
  inv_promise c = Rejected t e ->
  exists t' e' c',
    outcome (promiseEach fuel k n now parameters mc) = Some (Rejected t' e') /\
    In c' (calls (promiseEach fuel k n now parameters mc)) /\
    inv_promise c' = Rejected t' e' /\
    inv_chunk c' = inv_chunk c /\
    (t' <= t)%nat /\
    forall d, In d (calls (promiseEach fuel k n now parameters mc)) ->
              (inv_chunk d <= inv_chunk c)%nat.
Proof.
  revert k n now parameters mc.
  induction fuel as [|fuel IH]; intros k n now parameters mc; [easy|].
  step fuel IH; intros Hin Hrej.
  - destruct (chunk_fulfilled _ _ _ _ _ Hall Hin) as (? & ? & E & _). congruence.
  - apply in_app_or in Hin. destruct Hin as [Hin|Hin].
    + destruct (chunk_fulfilled _ _ _ _ _ Hall Hin) as (? & ? & E & _).
      congruence.
    + destruct (IH _ _ _ _ _ Hin Hrej)
        as (t' & e' & c' & Hout & Hin' & Hc' & Hchunk & Hle & Hlast).
      exists t', e', c'. rewrite Hout.
      repeat split; auto using in_or_app.
      intros d Hd. apply in_app_or in Hd. destruct Hd as [Hd|Hd]; [|auto].
      apply invoke_all_In in Hd. apply promiseEach_calls_after in Hin. lia.
  - destruct (Promise_all_rejected _ _ _ _ Hall) as [Hfirst Hmin].
    apply in_map_iff in Hfirst. destruct Hfirst as (c' & Hc' & Hin').
    exists t0, e0, c'. repeat split; auto.
    + apply invoke_all_In in Hin. apply invoke_all_In in Hin'. lia.
    + apply (Hmin t e). rewrite <- Hrej. now apply in_map.
    + intros d Hd. apply invoke_all_In in Hin. apply invoke_all_In in Hd. lia.
  - exfalso. apply (Promise_all_pending _ _ Hall t e).
    rewrite <- Hrej. now apply in_map.
Qed.

(** With a limit of at least 1, more units of fuel than the array has
    elements are enough. *)
Lemma promiseEach_terminates fuel k n now parameters mc :
  (1 <= default_limit mc)%Z ->
  (List.length parameters < fuel)%nat ->
  outcome (promiseEach fuel k n now parameters mc) <> None.
Proof.
  revert k n now parameters mc.
  induction fuel as [|fuel IH]; intros k n now parameters mc Hm Hfuel; [lia|].
  step fuel IH; try discriminate.
  match goal with
  | |- context [outcome ?r] => assert (Hrest : outcome r <> None)
  end.
  { apply IH; [now rewrite default_limit_idem|].
    assert (Hne : parameters <> []).
    { intros ->. now rewrite splice0_length_snd in Hlen. }
    pose proof (splice0_shrinks parameters _ Hm Hne). lia. }
  destruct (outcome _) as [[| |]|]; congruence.
Qed.

(** ... and then more fuel changes nothing. *)
Lemma promiseEach_fuel fuel fuel' k n now parameters mc :
  (1 <= default_limit mc)%Z ->
  (List.length parameters < fuel)%nat ->
  (List.length parameters < fuel')%nat ->
  promiseEach fuel k n now parameters mc
  = promiseEach fuel' k n now parameters mc.
Proof.
  revert fuel' k n now parameters mc.
  induction fuel as [|fuel IH]; intros fuel' k n now parameters mc Hm H1 H2;
    [lia|].
  destruct fuel' as [|fuel']; [lia|].
  rewrite !promiseEach_step. cbv zeta.
  destruct (Promise_all _ _) as [t results|t e|]; try reflexivity.
  destruct (Nat.eqb_spec (List.length (snd (splice0 parameters (default_limit mc)))) 0)
    as [Hlen|Hlen]; [reflexivity|].
  assert (Hne : parameters <> []).
  { intros ->. now rewrite splice0_length_snd in Hlen. }
  pose proof (splice0_shrinks parameters _ Hm Hne).
  rewrite (IH fuel'); [reflexivity|now rewrite default_limit_idem|lia|lia].
Qed.

(** When the transform is fulfilled on every parameter, the run is. *)
Lemma promiseEach_succeeds fuel k n now parameters mc :
  (1 <= default_limit mc)%Z ->
  (List.length parameters < fuel)%nat ->
  Forall fulfils (map applied parameters) ->
  exists t vs,
    outcome (promiseEach fuel k n now parameters mc) = Some (Fulfilled t vs).
Proof.
  revert k n now parameters mc.
  induction fuel as [|fuel IH]; intros k n now parameters mc Hm Hfuel Hall';
    [lia|].
  assert (Hparts := splice0_parts parameters (default_limit mc)).
  rewrite <- Hparts, map_app in Hall'. apply Forall_app in Hall'.
  destruct Hall' as [Hfst Hsnd].
  destruct (invoke_all_fulfils k n now _ Hfst) as [vs Hvs].
  destruct (Promise_all_of_fulfilled now _ _ Hvs) as [t1 Ht1].
  step fuel IH; try congruence.
  - eauto.
  - match goal with
    | |- context [outcome ?r] =>
        assert (Hrest : exists t vs, outcome r = Some (Fulfilled t vs))
    end.
    { apply IH; [now rewrite default_limit_idem| |exact Hsnd].
      assert (Hne : parameters <> []).
      { intros ->. now rewrite splice0_length_snd in Hlen. }
      pose proof (splice0_shrinks parameters _ Hm Hne). lia. }
    destruct Hrest as (t' & other & ->). eauto.
Qed.

End RunnerFacts.

(* ===================================================================== *)
(** * The batch runner: order, failure, concurrency, termination *)
(* ===================================================================== *)

(** C1. For a limit of at least 1 and any latencies, the value of a run of
    [promiseEach] is the concatenation, in the order of the inputs, of the
    sequences the transform yields on each input: whenever the run is
    fulfilled its value is that list, and it is fulfilled (at some instant)
    whenever the transform is fulfilled on every input. *)
Theorem promiseEach_preserves_order
        (func : list value -> settlement) (latency : nat -> nat)
        (fuel now : nat) (inputs : list value) (M : Z) :
  (1 <= M)%Z ->
  (List.length inputs < fuel)%nat ->
  (forall t vs,
      outcome (promiseEach func latency fuel 0 0 now inputs (Some M))
      = Some (Fulfilled t vs) ->
      vs = flat_map (fun x => sequence_of (applied func x)) inputs) /\
  (Forall fulfils (map (applied func) inputs) ->
   exists t,
     outcome (promiseEach func latency fuel 0 0 now inputs (Some M))
     = Some (Fulfilled t
               (flat_map (fun x => sequence_of (applied func x)) inputs))).
Proof.
  intros HM Hfuel. split.
  - intros t vs H. now apply promiseEach_fulfilled in H.
  - intros Hall.
    destruct (promiseEach_succeeds func latency fuel 0 0 now inputs (Some M))
      as (t & vs & H); [now rewrite default_limit_pos|exact Hfuel|exact Hall|].
    exists t. rewrite H. apply promiseEach_fulfilled in H.
    destruct H as (_ & _ & ->). reflexivity.
Qed.

Lemma promiseEach_preserves_order_witness :
  exists t,
    outcome (promiseEach echo (fun n => (5 - n)%nat) 6 0 0 0
                         [VNumber 1; VArray [VNumber 2; VNumber 3];
                          VString "a"; VNumber 4; VNumber 5]
                         (Some 2%Z))
    = Some (Fulfilled t [VNumber 1; VNumber 2; VNumber 3;
                         VString "a"; VNumber 4; VNumber 5]).
Proof.
  apply (proj2 (promiseEach_preserves_order
                  echo (fun n => (5 - n)%nat) 6 0
                  [VNumber 1; VArray [VNumber 2; VNumber 3];
                   VString "a"; VNumber 4; VNumber 5] 2
                  ltac:(lia) ltac:(cbn; lia))).
  repeat constructor; eexists; reflexivity.
Defined.

(** C3. [promiseEach] fails fast.  When a call of the transform is rejected,
    the run is rejected, with the very reason of a call of the same chunk:
    the first of that chunk to be rejected, hence that call's own reason
    when it is the only one rejected.  No call of a later chunk is made; the
    inputs of the later chunks are still in the array; and the run, being
    rejected, carries no result of the earlier chunks. *)
Theorem promiseEach_fails_fast
        (func : list value -> settlement) (latency : nat -> nat)
        (fuel now : nat) (inputs : list value) (maxConcurrent : option Z)
        (c : invocation) (t : nat) (e : value) :
  In c (calls (promiseEach func latency fuel 0 0 now inputs maxConcurrent)) ->
  inv_promise c = Rejected t e ->
  exists t' e' c' consumed,
    outcome (promiseEach func latency fuel 0 0 now inputs maxConcurrent)
    = Some (Rejected t' e') /\
    In c' (calls (promiseEach func latency fuel 0 0 now inputs maxConcurrent)) /\
    inv_promise c' = Rejected t' e' /\
    inv_chunk c' = inv_chunk c /\
    (t' <= t)%nat /\
    ((forall d t2 e2,
         In d (calls (promiseEach func latency fuel 0 0 now inputs maxConcurrent)) ->
         inv_promise d = Rejected t2 e2 -> d = c) ->
     e' = e) /\
    (forall d,
        In d (calls (promiseEach func latency fuel 0 0 now inputs maxConcurrent)) ->
        (inv_chunk d <= inv_chunk c)%nat) /\
    inputs = consumed
             ++ remaining (promiseEach func latency fuel 0 0 now inputs
                                       maxConcurrent) /\
    map inv_args (calls (promiseEach func latency fuel 0 0 now inputs
                                     maxConcurrent))
    = map arguments_of consumed.
Proof.
  intros Hin Hrej.
  destruct (promiseEach_rejection func latency _ _ _ _ _ _ _ _ _ Hin Hrej)
    as (t' & e' & c' & Hout & Hin' & Hc' & Hchunk & Hle & Hlast).
  destruct (promiseEach_consumes func latency fuel 0 0 now inputs maxConcurrent)
    as (consumed & Hparts & Hargs).
  exists t', e', c', consumed. repeat split; auto.
  intros Honly. specialize (Honly _ _ _ Hin' Hc'). subst c'. congruence.
Qed.

Lemma promiseEach_fails_fast_witness :
  exists t' e' c' consumed,
    outcome (promiseEach echo_nonnegative (fun n => (3 - n)%nat) 5 0 0 0
               (map VNumber [1; -2; 3; 4]%Z) (Some 2%Z))
    = Some (Rejected t' e') /\
    In c' (calls (promiseEach echo_nonnegative (fun n => (3 - n)%nat) 5 0 0 0
                    (map VNumber [1; -2; 3; 4]%Z) (Some 2%Z))) /\
    inv_promise c' = Rejected t' e' /\
    inv_chunk c' = 0%nat /\
    (t' <= 2)%nat /\
    ((forall d t2 e2,
         In d (calls (promiseEach echo_nonnegative (fun n => (3 - n)%nat) 5 0 0 0
                        (map VNumber [1; -2; 3; 4]%Z) (Some 2%Z))) ->
         inv_promise d = Rejected t2 e2 ->
         d = {| inv_chunk := 0; inv_number := 1;
                inv_args := [VNumber (-2)]; inv_start := 0;
                inv_promise := Rejected 2 (VError "negative: -2") |}) ->
     e' = VError "negative: -2") /\
    (forall d,
        In d (calls (promiseEach echo_nonnegative (fun n => (3 - n)%nat) 5 0 0 0
                       (map VNumber [1; -2; 3; 4]%Z) (Some 2%Z))) ->
        (inv_chunk d <= 0)%nat) /\
    map VNumber [1; -2; 3; 4]%Z
    = consumed
      ++ remaining (promiseEach echo_nonnegative (fun n => (3 - n)%nat) 5 0 0 0
                      (map VNumber [1; -2; 3; 4]%Z) (Some 2%Z)) /\
    map inv_args (calls (promiseEach echo_nonnegative (fun n => (3 - n)%nat) 5 0 0 0
                           (map VNumber [1; -2; 3; 4]%Z) (Some 2%Z)))
    = map arguments_of consumed.
Proof.
  apply (promiseEach_fails_fast
           echo_nonnegative (fun n => (3 - n)%nat) 5 0
           (map VNumber [1; -2; 3; 4]%Z) (Some 2%Z)
           {| inv_chunk := 0; inv_number := 1;
              inv_args := [VNumber (-2)]; inv_start := 0;
              inv_promise := Rejected 2 (VError "negative: -2") |}
           2 (VError "negative: -2")).
  - right. left. reflexivity.
  - reflexivity.
Defined.

(** C7. With a limit [M] of at least 1, at every instant at most [M] calls
    of the transform are pending; a chunk holds at most [M] calls; and a
    call of a later chunk starts only once every call of the earlier chunks
    has been fulfilled. *)
Theorem promiseEach_bounded_concurrency
        (func : list value -> settlement) (latency : nat -> nat)
        (fuel now : nat) (inputs : list value) (M : Z) :
  (1 <= M)%Z ->
  (forall instant,
      (Z.of_nat (in_flight instant
                   (calls (promiseEach func latency fuel 0 0 now inputs (Some M))))
       <= M)%Z) /\
  (forall j,
      (Z.of_nat (List.length
                   (filter (fun c => inv_chunk c =? j)%nat
                      (calls (promiseEach func latency fuel 0 0 now inputs
                                          (Some M)))))
       <= M)%Z) /\
  (forall c1 c2,
      In c1 (calls (promiseEach func latency fuel 0 0 now inputs (Some M))) ->
      In c2 (calls (promiseEach func latency fuel 0 0 now inputs (Some M))) ->
      (inv_chunk c1 < inv_chunk c2)%nat ->
      exists t v, inv_promise c1 = Fulfilled t v /\ (t <= inv_start c2)%nat).
Proof.
  intros HM. repeat split.
  - intros instant.
    pose proof (promiseEach_in_flight func latency fuel 0 0 now inputs
                                      (Some M) instant) as H.
    rewrite default_limit_pos in H by exact HM. lia.
  - intros j.
    pose proof (promiseEach_chunk_size func latency fuel 0 0 now inputs
                                       (Some M) j) as H.
    rewrite default_limit_pos in H by exact HM. lia.
  - intros c1 c2. apply promiseEach_chunk_order.
Qed.

Lemma promiseEach_bounded_concurrency_witness :
  (forall instant,
      (Z.of_nat (in_flight instant
                   (calls (promiseEach echo (fun n => (5 - n)%nat) 6 0 0 0
                             (map VNumber [1; 2; 3; 4; 5]%Z) (Some 2%Z))))
       <= 2)%Z) /\
  (forall j,
      (Z.of_nat (List.length
                   (filter (fun c => inv_chunk c =? j)%nat
                      (calls (promiseEach echo (fun n => (5 - n)%nat) 6 0 0 0
                                (map VNumber [1; 2; 3; 4; 5]%Z) (Some 2%Z)))))
       <= 2)%Z) /\
  (forall c1 c2,
      In c1 (calls (promiseEach echo (fun n => (5 - n)%nat) 6 0 0 0
                      (map VNumber [1; 2; 3; 4; 5]%Z) (Some 2%Z))) ->
      In c2 (calls (promiseEach echo (fun n => (5 - n)%nat) 6 0 0 0
                      (map VNumber [1; 2; 3; 4; 5]%Z) (Some 2%Z))) ->
      (inv_chunk c1 < inv_chunk c2)%nat ->
      exists t v, inv_promise c1 = Fulfilled t v /\ (t <= inv_start c2)%nat).
Proof.
  apply (promiseEach_bounded_concurrency
           echo (fun n => (5 - n)%nat) 6 0 (map VNumber [1; 2; 3; 4; 5]%Z) 2).
  lia.
Defined.

(** C8, as the code has it.  Leaving [maxConcurrent] out, or passing 0, is
    the same as passing 1, and then every chunk holds at most one call. *)
Theorem promiseEach_default_limit
        (func : list value -> settlement) (latency : nat -> nat)
        (fuel k n now : nat) (parameters : list value) :
  promiseEach func latency fuel k n now parameters None
  = promiseEach func latency fuel k n now parameters (Some 1%Z) /\
  promiseEach func latency fuel k n now parameters (Some 0%Z)
  = promiseEach func latency fuel k n now parameters (Some 1%Z) /\
  forall j,
    (List.length
       (filter (fun c => inv_chunk c =? j)%nat
          (calls (promiseEach func latency fuel k n now parameters None)))
     <= 1)%nat.
Proof.
  repeat split.
  - destruct fuel; reflexivity.
  - destruct fuel; reflexivity.
  - intros j. apply (promiseEach_chunk_size func latency fuel k n now
                                            parameters None j).
Qed.

(** C8 as stated fails for a negative limit: [splice] then removes nothing,
    so on a non-empty array the run calls itself for ever and its promise
    is never settled, while with the limit 1 it is fulfilled. *)
Lemma promiseEach_negative_limit_differs :
  (forall fuel,
      promiseEach echo (fun _ => 0%nat) fuel 0 0 0 [VNumber 7] (Some (-1)%Z)
      = {| outcome := None; remaining := [VNumber 7]; calls := [] |}) /\
  outcome (promiseEach echo (fun _ => 0%nat) 2 0 0 0 [VNumber 7] (Some 1%Z))
  = Some (Fulfilled 0 [VNumber 7]).
Proof.
  split; [|reflexivity].
  assert (H : forall fuel k n,
             promiseEach echo (fun _ => 0%nat) fuel k n 0 [VNumber 7]
                         (Some (-1)%Z)
             = {| outcome := None; remaining := [VNumber 7]; calls := [] |}).
  { induction fuel as [|fuel IH]; intros k n; [reflexivity|].
    rewrite promiseEach_step. cbn. rewrite IH. reflexivity. }
  intros fuel. apply H.
Qed.

(** C10. With a limit of at least 1 the recursion of [promiseEach] ends:
    any amount of fuel above the length of the array gives a settled or
    pending promise, and the same run; each call of [promiseEach] on a
    non-empty array shortens it; and a fulfilled run leaves the caller's
    array empty. *)
Theorem promiseEach_terminates_and_empties
        (func : list value -> settlement) (latency : nat -> nat)
        (now : nat) (inputs : list value) (M : Z) :
  (1 <= M)%Z ->
  (forall fuel,
      (List.length inputs < fuel)%nat ->
      outcome (promiseEach func latency fuel 0 0 now inputs (Some M)) <> None /\
      promiseEach func latency fuel 0 0 now inputs (Some M)
      = promiseEach func latency (S (List.length inputs)) 0 0 now inputs (Some M)) /\
  (inputs <> [] ->
   (List.length (snd (splice0 inputs (default_limit (Some M))))
    < List.length inputs)%nat) /\
  (forall fuel t vs,
      outcome (promiseEach func latency fuel 0 0 now inputs (Some M))
      = Some (Fulfilled t vs) ->
      remaining (promiseEach func latency fuel 0 0 now inputs (Some M)) = []).
Proof.
  intros HM. pose proof (default_limit_pos M HM) as Hd. repeat split.
  - apply promiseEach_terminates; [now rewrite Hd|assumption].
  - apply promiseEach_fuel; [now rewrite Hd|assumption|lia].
  - intros Hne. apply splice0_shrinks; [now rewrite Hd|exact Hne].
  - intros fuel t vs H. now apply promiseEach_fulfilled in H.
Qed.

Lemma promiseEach_terminates_and_empties_witness :
  (forall fuel,
      (List.length (map VNumber [1; 2; 3]%Z) < fuel)%nat ->
      outcome (promiseEach echo (fun n => n) fuel 0 0 0
                           (map VNumber [1; 2; 3]%Z) (Some 2%Z)) <> None /\
      promiseEach echo (fun n => n) fuel 0 0 0
                  (map VNumber [1; 2; 3]%Z) (Some 2%Z)
      = promiseEach echo (fun n => n) (S (List.length (map VNumber [1; 2; 3]%Z)))
                    0 0 0 (map VNumber [1; 2; 3]%Z) (Some 2%Z)) /\
  (map VNumber [1; 2; 3]%Z <> [] ->
   (List.length (snd (splice0 (map VNumber [1; 2; 3]%Z)
                              (default_limit (Some 2%Z))))
    < List.length (map VNumber [1; 2; 3]%Z))%nat) /\
  (forall fuel t vs,
      outcome (promiseEach echo (fun n => n) fuel 0 0 0
                           (map VNumber [1; 2; 3]%Z) (Some 2%Z))
      = Some (Fulfilled t vs) ->
      remaining (promiseEach echo (fun n => n) fuel 0 0 0
                             (map VNumber [1; 2; 3]%Z) (Some 2%Z)) = []).
Proof.
  apply (promiseEach_terminates_and_empties
           echo (fun n => n) 0 (map VNumber [1; 2; 3]%Z) 2).
  lia.
Defined.

(* ===================================================================== *)
(** * Lemmas on strings *)
(* ===================================================================== *)

Lemma length_append (a b : string) :
  String.length (a ++ b) = (String.length a + String.length b)%nat.
Proof. induction a as [|c a IH]; cbn; [reflexivity|now rewrite IH]. Qed.

Lemma append_assoc (a b c : string) :
  ((a ++ b) ++ c = a ++ (b ++ c))%string.
Proof. induction a as [|x a IH]; cbn; [reflexivity|now rewrite IH]. Qed.

Lemma take_append (a b : string) : take (String.length a) (a ++ b) = a.
Proof. induction a as [|c a IH]; cbn; [now destruct b|now rewrite IH]. Qed.

Lemma drop_append (a b : string) : drop (String.length a) (a ++ b) = b.
Proof. induction a as [|c a IH]; cbn; [now destruct b|exact IH]. Qed.

Lemma take_all (s : string) : take (String.length s) s = s.
Proof. induction s as [|c s IH]; cbn; [reflexivity|now rewrite IH]. Qed.

Lemma prefix_append (a b : string) : String.prefix a (a ++ b) = true.
Proof.
  induction a as [|c a IH]; cbn; [now destruct b|].
  destruct (ascii_dec c c); [exact IH|congruence].
Qed.

Lemma prefix_weaken (a b s : string) :
  String.prefix (a ++ b) s = true -> String.prefix a s = true.
Proof.
  revert s. induction a as [|c a IH]; intros s H; [now destruct s|].
  destruct s as [|d s]; [discriminate|]. cbn in *.
  destruct (ascii_dec c d); [now apply IH|discriminate].
Qed.

Lemma prefix_head (c d : ascii) (a s : string) :
  String.prefix (String c a) (String d s) = true ->
  c = d /\ String.prefix a s = true.
Proof. cbn. destruct (ascii_dec c d); [auto|discriminate]. Qed.

(** The first occurrence of a character that the text before it lacks. *)
Lemma indexOf_from_first (c : ascii) (before after : string) (from : Z) :
  ~ In c (list_ascii_of_string before) ->
  indexOf_from from (before ++ String c after) (String c EmptyString)
  = (from + Z.of_nat (String.length before))%Z.
Proof.
  revert from. induction before as [|d before IH]; intros from Hnot.
  - cbn. destruct (ascii_dec c c); [|congruence].
    destruct after; cbn; lia.
  - cbn [append indexOf_from String.prefix].
    destruct (ascii_dec c d) as [->|Hcd].
    + exfalso. apply Hnot. now left.
    + rewrite IH.
      * cbn [String.length]. lia.
      * intros Hin. apply Hnot. now right.
Qed.

Lemma slice_split (a b : string) :
  slice (a ++ b) 0 (Some (Z.of_nat (String.length a))) = a /\
  slice (a ++ b) (Z.of_nat (String.length a)) None = b.
Proof.
  unfold slice, relative_index. rewrite length_append.
  destruct (Z.ltb_spec 0 0); [lia|].
  destruct (Z.ltb_spec (Z.of_nat (String.length a)) 0); [lia|].
  split.
  - replace (Z.to_nat (Z.min 0 _)) with 0%nat by lia.
    replace (Z.to_nat (Z.max _ 0)) with (String.length a) by lia.
    cbn [drop]. apply take_append.
  - replace (Z.to_nat (Z.min (Z.of_nat (String.length a)) _))
      with (String.length a) by lia.
    replace (Z.to_nat (Z.max _ 0)) with (String.length b) by lia.
    rewrite drop_append. apply take_all.
Qed.

(** ** [encodeURIComponent] and [replace] *)

Lemma hexDigit_unreserved (n : nat) : uriUnreserved (hexDigit n) = true.
Proof. do 16 (destruct n as [|n]; [reflexivity|]). reflexivity. Qed.

(** The encoding consists of unreserved characters and per cent signs. *)
Lemma encodeURIComponent_chars (s : string) (c : ascii) :
  In c (list_ascii_of_string (encodeURIComponent s)) ->
  uriUnreserved c = true \/ c = "%"%char.
Proof.
  induction s as [|a s IH]; cbn; [easy|].
  destruct (uriUnreserved a) eqn:E; cbn.
  - intros [<-|H]; auto.
  - intros [<-|[<-|[<-|H]]]; auto using hexDigit_unreserved.
Qed.

Lemma encodeURIComponent_no_dollar (s : string) :
  ~ In "$"%char (list_ascii_of_string (encodeURIComponent s)).
Proof.
  intros H. apply encodeURIComponent_chars in H.
  destruct H as [H|H]; vm_compute in H; discriminate.
Qed.

Lemma encodeURIComponent_no_slash (s : string) :
  ~ In "/"%char (list_ascii_of_string (encodeURIComponent s)).
Proof.
  intros H. apply encodeURIComponent_chars in H.
  destruct H as [H|H]; vm_compute in H; discriminate.
Qed.

(** An encoding without a per cent sign is the string itself. *)
Lemma encodeURIComponent_plain (s : string) :
  ~ In "%"%char (list_ascii_of_string (encodeURIComponent s)) ->
  encodeURIComponent s = s.
Proof.
  induction s as [|a s IH]; cbn; [reflexivity|].
  destruct (uriUnreserved a); cbn.
  - intros H. rewrite IH; [reflexivity|]. intros Hin. apply H. now right.
  - intros H. exfalso. apply H. now left.
Qed.

(** A replacement text without a dollar stands for itself. *)
Lemma getSubstitution_literal (matched before after r : string) :
  ~ In "$"%char (list_ascii_of_string r) ->
  getSubstitution matched before after r = r.
Proof.
  induction r as [|c r IH]; intros H; [reflexivity|].
  cbn [getSubstitution].
  destruct (Ascii.eqb_spec c "$") as [->|Hc].
  - exfalso. apply H. now left.
  - rewrite IH; [reflexivity|]. intros Hin. apply H. now right.
Qed.

Lemma map_header_wrapper (pkg rest : string) :
  map_header pkg ("package" ++ rest) = (folderName pkg ++ rest)%string.
Proof.
  unfold map_header, replace_at_start.
  rewrite prefix_append.
  change (String.length "package") with 7%nat.
  change (drop 7 ("package" ++ rest)) with rest.
  rewrite getSubstitution_literal; [reflexivity|].
  apply encodeURIComponent_no_dollar.
Qed.



(** A text without a slash that is followed by one where another such text
    is: the shorter of the two begins the longer. *)
Lemma prefix_of_slash_free (a b rest : string) :
  ~ In "/"%char (list_ascii_of_string a) ->
  ~ In "/"%char (list_ascii_of_string b) ->
  String.prefix (a ++ "/") (b ++ rest) = true ->
  String.prefix b a = true.
Proof.
  revert b. induction a as [|c a IH]; intros b Ha Hb H.
  - destruct b as [|d b]; [reflexivity|].
    cbn [append] in H. destruct rest; apply prefix_head in H;
      destruct H as [<- _]; exfalso; apply Hb; now left.
  - destruct b as [|d b]; [reflexivity|].
    cbn [append] in H. apply prefix_head in H. destruct H as [<- H].
    cbn. destruct (ascii_dec c c); [|congruence].
    apply IH; [| |exact H].
    + intros Hin. apply Ha. now right.
    + intros Hin. apply Hb. now right.
Qed.

(** ** Paths *)

Lemma split_slash_not_nil (s : string) : split_slash s <> [].
Proof.
  induction s as [|c s IH]; cbn; [discriminate|].
  destruct (Ascii.eqb c "/"); [discriminate|].
  destruct (split_slash s); discriminate.
Qed.

Lemma split_slash_append (a rest : string) :
  ~ In "/"%char (list_ascii_of_string a) ->
  split_slash (a ++ String "/" rest) = a :: split_slash rest.
Proof.
  induction a as [|c a IH]; intros Ha; [reflexivity|].
  cbn [append split_slash].
  destruct (Ascii.eqb_spec c "/") as [->|_].
  - exfalso. apply Ha. now left.
  - rewrite IH; [reflexivity|]. intros Hin. apply Ha. now right.
Qed.

Lemma concat_cons (sep x : string) (l : list string) :
  l <> [] ->
  String.concat sep (x :: l) = (x ++ sep ++ String.concat sep l)%string.
Proof. destruct l; [congruence|reflexivity]. Qed.

Lemma concat_split_slash (s : string) :
  String.concat "/" (split_slash s) = s.
Proof.
  induction s as [|c s IH]; [reflexivity|]. cbn [split_slash].
  pose proof (split_slash_not_nil s) as Hne.
  destruct (Ascii.eqb_spec c "/") as [->|_].
  - rewrite concat_cons by exact Hne. now rewrite IH.
  - destruct (split_slash s) as [|segment segments]; [congruence|].
    destruct segments as [|next segments].
    + cbn in *. now rewrite IH.
    + rewrite concat_cons by discriminate.
      rewrite concat_cons in IH by discriminate.
      rewrite <- IH. reflexivity.
Qed.

Lemma normalizeSegments_plain (allow : bool) (res segments : list string) :
  forallb plain segments = true ->
  normalizeSegments allow res segments = rev res ++ segments.
Proof.
  revert res. induction segments as [|segment segments IH]; intros res H.
  - cbn. now rewrite app_nil_r.
  - cbn [forallb] in H. apply andb_prop in H. destruct H as [Hseg Hrest].
    unfold plain in Hseg. cbn [normalizeSegments].
    destruct (String.eqb segment ""); [discriminate|].
    destruct (String.eqb segment "."); [discriminate|].
    destruct (String.eqb segment ".."); [discriminate|].
    cbn [orb]. rewrite IH by exact Hrest. cbn [rev].
    now rewrite <- app_assoc.
Qed.

Lemma last_plain (segments : list string) (before : list string) :
  segments <> [] -> forallb plain segments = true ->
  String.eqb (List.last (before ++ segments) "x") "" = false.
Proof.
  intros Hne H. destruct (exists_last Hne) as (front & final & ->).
  rewrite app_assoc, last_last.
  rewrite forallb_app in H. apply andb_prop in H. destruct H as [_ H].
  cbn in H. unfold plain in H.
  destruct (String.eqb final ""); [discriminate|reflexivity].
Qed.

(** What is not plain. *)
Lemma not_plain (segment : string) :
  plain segment = false ->
  segment = EmptyString \/ segment = "." \/ segment = "..".
Proof.
  unfold plain.
  destruct (String.eqb_spec segment ""); [auto|].
  destruct (String.eqb_spec segment "."); [auto|].
  destruct (String.eqb_spec segment ".."); [auto|discriminate].
Qed.

Lemma encodeURIComponent_plain_segment (pkg : string) :
  plain pkg = true -> plain (encodeURIComponent pkg) = true.
Proof.
  intros H. destruct (plain (encodeURIComponent pkg)) eqn:E; [reflexivity|].
  rewrite <- H. symmetry.
  apply not_plain in E.
  rewrite <- (encodeURIComponent_plain pkg).
  - destruct E as [->| [->| ->]]; reflexivity.
  - destruct E as [->| [->| ->]]; cbn; intuition discriminate.
Qed.

Lemma path_normalize_nonempty (path : string) :
  path <> EmptyString ->
  path_normalize path
  = match String.concat "/" (normalizeSegments (negb (startsWith path "/")) []
                                               (split_slash path)) with
    | EmptyString =>
        if startsWith path "/" then "/"
        else if trailingSeparator path then "./" else "."
    | String c res =>
        if startsWith path "/"
        then ("/" ++ (if trailingSeparator path
                      then (String c res ++ "/")%string else String c res))%string
        else if trailingSeparator path
             then (String c res ++ "/")%string else String c res
    end.
Proof.
  destruct path as [|a path]; [congruence|]. intros _. unfold path_normalize.
  destruct (String.concat _ _); reflexivity.
Qed.

(** A path of plain segments is resolved to itself below the root. *)
Lemma resolved_below_root (name : string) :
  plain_path name = true ->
  path_join ["./packages"; path_join ["/"; name]]
  = ("packages/" ++ name)%string.
Proof.
  intros Hplain. unfold plain_path in Hplain.
  pose proof (split_slash_not_nil name) as Hne.
  destruct name as [|c0 rest0]; [discriminate|].
  assert (Hinner : path_join ["/"; String c0 rest0]
                   = String "/" (String c0 rest0)).
  { unfold path_join. cbn [filter String.eqb negb]. cbn [String.concat].
    set (name := String c0 rest0) in *.
    set (p := ("/" ++ "/" ++ name)%string).
    assert (Hsplit : split_slash p = EmptyString :: EmptyString :: split_slash name)
      by reflexivity.
    rewrite (path_normalize_nonempty p) by discriminate.
    change (startsWith p "/") with true.
    unfold trailingSeparator. rewrite Hsplit. cbn [negb normalizeSegments].
    cbn [String.eqb orb]. rewrite normalizeSegments_plain by exact Hplain.
    cbn [rev app]. rewrite concat_split_slash.
    pose proof (last_plain (split_slash name) [EmptyString; EmptyString]
                           Hne Hplain) as Hlast.
    cbn [app] in Hlast. rewrite Hlast. reflexivity. }
  rewrite Hinner. unfold path_join. cbn [filter String.eqb negb].
  cbn [String.concat].
  set (name := String c0 rest0) in *.
  set (p := ("./packages" ++ "/" ++ String "/" name)%string).
  assert (Hsplit : split_slash p
                   = "." :: "packages" :: EmptyString :: split_slash name).
  { unfold p.
    change ("./packages" ++ "/" ++ String "/" name)%string
      with ("." ++ String "/" ("packages" ++ String "/" ("" ++ String "/" name)))%string.
    rewrite (split_slash_append "."), (split_slash_append "packages"),
            (split_slash_append ""); try (cbn; intuition discriminate). }
  rewrite (path_normalize_nonempty p) by discriminate.
  change (startsWith p "/") with false.
  unfold trailingSeparator. rewrite Hsplit. cbn [negb normalizeSegments].
  change (String.eqb "." "" || String.eqb "." ".") with true. cbn iota.
  change (String.eqb "packages" "" || String.eqb "packages" ".") with false.
  change (String.eqb "packages" "..") with false. cbn iota.
  cbn [String.eqb orb]. rewrite normalizeSegments_plain by exact Hplain.
  cbn [rev app].
  pose proof (last_plain (split_slash name) ["."; "packages"; EmptyString]
                         Hne Hplain) as Hlast.
  cbn [app] in Hlast. rewrite Hlast.
  rewrite concat_cons by exact Hne. rewrite concat_split_slash.
  reflexivity.
Qed.


(** An entry of the wrapper segment, with a plain path, of a package with a
    plain name. *)
Lemma written_to_wrapper (pkg rest : string) :
  plain pkg = true -> plain_path rest = true ->
  written_to pkg ("package/" ++ rest)
  = ("packages/" ++ encodeURIComponent pkg ++ "/" ++ rest)%string.
Proof.
  intros Hpkg Hrest. unfold written_to.
  change ("package/" ++ rest)%string with ("package" ++ String "/" rest)%string.
  rewrite map_header_wrapper. unfold folderName.
  apply resolved_below_root.
  change (forallb plain
            (split_slash (encodeURIComponent pkg ++ String "/" rest)) = true).
  rewrite split_slash_append by apply encodeURIComponent_no_slash.
  cbn [forallb]. rewrite encodeURIComponent_plain_segment by exact Hpkg.
  exact Hrest.
Qed.

(* ===================================================================== *)
(** * The archive fetcher: download path and entry names *)
(* ===================================================================== *)

(** C4. The download path.  For a name that starts with "@" and has the
    form scope, "/", name with no "/" in the scope, [org] is the scope with
    its "/" and [name] the rest, and the path is
    [{org}{name}/-/{name}-{version}.tgz]; for a name that does not start
    with "@", [org] is empty and the path is [{pkg}/-/{pkg}-{version}.tgz].
    So [@scope/name] at 1.2.3 gives [@scope/name/-/name-1.2.3.tgz], and
    [lodash] at 4.17.0 gives [lodash/-/lodash-4.17.0.tgz]. *)
Theorem tarball_path_resolution (pkg version : string) :
  (startsWith pkg "@" = true ->
   forall scope name,
     pkg = (scope ++ "/" ++ name)%string ->
     ~ In "/"%char (list_ascii_of_string scope) ->
     org_and_name pkg = ((scope ++ "/")%string, name) /\
     tarball_path pkg (VString version)
     = ((scope ++ "/") ++ name ++ "/-/" ++ name ++ "-" ++ version ++ ".tgz")%string) /\
  (startsWith pkg "@" = false ->
   org_and_name pkg = (EmptyString, pkg) /\
   tarball_path pkg (VString version)
   = (pkg ++ "/-/" ++ pkg ++ "-" ++ version ++ ".tgz")%string) /\
  tarball_url pkg (VString version)
  = ("https://registry.npmjs.org/" ++ tarball_path pkg (VString version))%string /\
  tarball_path "@scope/name" (VString "1.2.3") = "@scope/name/-/name-1.2.3.tgz" /\
  tarball_path "lodash" (VString "4.17.0") = "lodash/-/lodash-4.17.0.tgz".
Proof.
  split; [|split; [|split; [reflexivity|split; reflexivity]]].
  - intros Hat scope name Hpkg Hscope.
    assert (E : org_and_name pkg = ((scope ++ "/")%string, name)).
    { unfold org_and_name. rewrite Hat. unfold indexOf. subst pkg.
      change (scope ++ "/" ++ name)%string
        with (scope ++ String "/" name)%string.
      rewrite (indexOf_from_first "/" scope name 0 Hscope).
      replace (0 + Z.of_nat (String.length scope) + 1)%Z
        with (Z.of_nat (String.length (scope ++ "/"))).
      2:{ rewrite length_append. cbn [String.length]. lia. }
      replace (scope ++ String "/" name)%string
        with ((scope ++ "/") ++ name)%string.
      2:{ now rewrite append_assoc. }
      destruct (slice_split (scope ++ "/") name) as [-> ->]. reflexivity. }
    split; [exact E|]. unfold tarball_path. rewrite E. reflexivity.
  - intros Hat.
    assert (E : org_and_name pkg = (EmptyString, pkg)).
    { unfold org_and_name. now rewrite Hat. }
    split; [exact E|]. unfold tarball_path. rewrite E. reflexivity.
Qed.

Lemma tarball_path_resolution_witness :
  org_and_name "@angular/core" = ("@angular/", "core") /\
  tarball_path "@angular/core" (VString "2.0.0")
  = "@angular/core/-/core-2.0.0.tgz".
Proof.
  apply (proj1 (tarball_path_resolution "@angular/core" "2.0.0")
               eq_refl "@angular" "core" eq_refl).
  cbn. intuition discriminate.
Defined.




(* ===================================================================== *)
(** * The orchestrator: offsets and truncation *)
(* ===================================================================== *)

Lemma ceil_div_step (a : Z) :
  (0 < a)%Z -> ceil_div a 36 = (1 + ceil_div (a - 36) 36)%Z.
Proof. intros H. unfold ceil_div. Z.div_mod_to_equations. lia. Qed.

Lemma ceil_div_nonpositive (a : Z) : (a <= 0)%Z -> (ceil_div a 36 <= 0)%Z.
Proof. intros H. unfold ceil_div. Z.div_mod_to_equations. lia. Qed.

Lemma ceil_div_bounds (a : Z) :
  (a <= 36 * ceil_div a 36 /\ 36 * (ceil_div a 36 - 1) < a)%Z.
Proof. unfold ceil_div. Z.div_mod_to_equations. lia. Qed.

(** The loop, given enough iterations. *)
Lemma offsets_from_spec (fuel : nat) (i count : Z) :
  (count - i <= 36 * Z.of_nat fuel)%Z ->
  offsets_from fuel i count
  = map (fun k => (i + 36 * Z.of_nat k)%Z)
        (seq 0 (Z.to_nat (ceil_div (count - i) 36))).
Proof.
  revert i. induction fuel as [|fuel IH]; intros i Hfuel.
  - pose proof (ceil_div_nonpositive (count - i)).
    replace (Z.to_nat _) with 0%nat by lia. reflexivity.
  - cbn [offsets_from]. destruct (Z.ltb_spec i count) as [Hlt|Hge].
    + rewrite ceil_div_step by lia.
      pose proof (ceil_div_bounds (count - i - 36)) as Hb.
      replace (Z.to_nat (1 + ceil_div (count - i - 36) 36))
        with (S (Z.to_nat (ceil_div (count - i - 36) 36))) by lia.
      cbn [seq map]. rewrite <- seq_shift, map_map.
      rewrite IH by lia.
      replace (count - (i + 36))%Z with (count - i - 36)%Z by lia.
      f_equal; [f_equal; lia|].
      apply map_ext. intros k. lia.
    + pose proof (ceil_div_nonpositive (count - i)).
      replace (Z.to_nat _) with 0%nat by lia. reflexivity.
Qed.

(** C6. The offsets are 0, 36, 72, ... in ascending order; there are just
    enough of them for 36 times their number to reach [count], and no
    more: that is [ceil(count / 36)] offsets (none when [count] is not
    positive); the bound on the iterations of the loop in the model is
    never what stops it; and for 50 the offsets are 0 and 36. *)
Theorem offsets_cover_count (count : Z) :
  offsets count
  = map (fun k => (36 * Z.of_nat k)%Z) (seq 0 (List.length (offsets count))) /\
  (count <= 36 * Z.of_nat (List.length (offsets count)))%Z /\
  (forall k, (k < List.length (offsets count))%nat ->
             (36 * Z.of_nat k < count)%Z) /\
  Z.of_nat (List.length (offsets count)) = Z.max 0 (ceil_div count 36) /\
  (forall fuel, (Z.to_nat count <= fuel)%nat ->
                offsets_from fuel 0 count = offsets count) /\
  offsets 50 = [0; 36]%Z.
Proof.
  assert (Hspec : forall fuel,
             (Z.to_nat count <= fuel)%nat ->
             offsets_from fuel 0 count
             = map (fun k => (36 * Z.of_nat k)%Z)
                   (seq 0 (Z.to_nat (ceil_div count 36)))).
  { intros fuel Hfuel. rewrite offsets_from_spec by lia.
    replace (count - 0)%Z with count by lia. reflexivity. }
  assert (Hlen : List.length (offsets count) = Z.to_nat (ceil_div count 36)).
  { unfold offsets. rewrite Hspec by lia. now rewrite length_map, length_seq. }
  pose proof (ceil_div_bounds count) as Hb.
  rewrite Hlen. repeat split.
  - unfold offsets. now apply Hspec.
  - lia.
  - intros k Hk. lia.
  - lia.
  - intros fuel Hfuel. unfold offsets. rewrite !Hspec by lia. reflexivity.
Qed.

Lemma listing_stage https_get re_exec_all tar_headers lat1 lat2 fuel now count :
  listing (downloadPackages https_get re_exec_all tar_headers lat1 lat2
                            fuel now count)
  = promiseEach (scrape_transform https_get re_exec_all) lat1 fuel 0 0 now
                (map VNumber (offsets count)) (Some 3%Z).
Proof.
  unfold downloadPackages.
  destruct (outcome _) as [[t vs|t e|]|]; reflexivity.
Qed.

(** C2. When the listing stage is fulfilled, its value is the pages in the
    order of the offsets, and the array handed to the extraction stage is
    the first [count] entries of that value (all of them when there are
    fewer), entry for entry; the extraction stage is [promiseEach] run on
    that array, and it calls the transform on the entries of a prefix of it,
    in order. *)
Theorem extraction_input_is_truncated_listing
        (https_get : request -> option response)
        (re_exec_all : string -> list (string * string))
        (tar_headers : string -> list string * option value)
        (lat1 lat2 : nat -> nat) (fuel now : nat) (count : Z)
        (t : nat) (mostDepended : list value) :
  outcome (listing (downloadPackages https_get re_exec_all tar_headers
                                     lat1 lat2 fuel now count))
  = Some (Fulfilled t mostDepended) ->
  mostDepended
  = flat_map (fun x => sequence_of
                         (applied (scrape_transform https_get re_exec_all) x))
             (map VNumber (offsets count)) /\
  toBeDownloaded (downloadPackages https_get re_exec_all tar_headers
                                   lat1 lat2 fuel now count)
  = Some (firstn (Z.to_nat count) mostDepended) /\
  List.length (firstn (Z.to_nat count) mostDepended)
  = Nat.min (Z.to_nat count) (List.length mostDepended) /\
  (forall i, (i < Z.to_nat count)%nat ->
             nth_error (firstn (Z.to_nat count) mostDepended) i
             = nth_error mostDepended i) /\
  extraction (downloadPackages https_get re_exec_all tar_headers
                               lat1 lat2 fuel now count)
  = Some (promiseEach (download_transform https_get tar_headers) lat2
                      fuel 0 0 t (firstn (Z.to_nat count) mostDepended)
                      (Some 3%Z)) /\
  exists consumed,
    firstn (Z.to_nat count) mostDepended
    = consumed
      ++ remaining (promiseEach (download_transform https_get tar_headers) lat2
                                fuel 0 0 t
                                (firstn (Z.to_nat count) mostDepended)
                                (Some 3%Z)) /\
    map inv_args
        (calls (promiseEach (download_transform https_get tar_headers) lat2
                            fuel 0 0 t (firstn (Z.to_nat count) mostDepended)
                            (Some 3%Z)))
    = map arguments_of consumed.
Proof.
  intros Hlisting. rewrite listing_stage in Hlisting.
  split; [now apply promiseEach_fulfilled in Hlisting|].
  assert (Hsplice : splice0 mostDepended count
                    = (firstn (Z.to_nat count) mostDepended,
                       snd (splice0 mostDepended count))).
  { rewrite <- splice0_truncates. now destruct (splice0 mostDepended count). }
  unfold downloadPackages. rewrite Hlisting, Hsplice. cbn [toBeDownloaded extraction].
  repeat split.
  - apply length_firstn.
  - intros i Hi. rewrite nth_error_firstn.
    destruct (Nat.ltb_spec i (Z.to_nat count)); [reflexivity|lia].
  - apply promiseEach_consumes.
Qed.

Lemma extraction_input_is_truncated_listing_witness :
  toBeDownloaded (downloadPackages (always_page "<html>") two_matches one_entry
                                   (fun n => n) (fun n => n) 4 0 1)
  = Some [VArray [VString "lodash"; VString "4.17.0"]].
Proof.
  apply (extraction_input_is_truncated_listing
           (always_page "<html>") two_matches one_entry
           (fun n => n) (fun n => n) 4 0 1 0
           [VArray [VString "lodash"; VString "4.17.0"];
            VArray [VString "@angular/core"; VString "2.0.0"]]).
  reflexivity.
Defined.

(* ===================================================================== *)
(** * The error of a failed fetch *)
(* ===================================================================== *)

Lemma httpsGetAsync_error https_get options response :
  https_get options = Some response ->
  statusCode response <> 200%Z ->
  httpsGetAsync https_get options
  = Some (inl (get_error options (statusCode response))).
Proof.
  intros Hget Hstatus. unfold httpsGetAsync. rewrite Hget.
  destruct (Z.eqb_spec (statusCode response) 200); [contradiction|reflexivity].
Qed.

(** Whatever the URL, the message built from a string names no target. *)
Lemma get_error_of_url (href : string) (status : Z) :
  get_error (Url href) status
  = VError ("GET undefinedundefined returned " ++ template (VNumber status)).
Proof. reflexivity. Qed.

Lemma get_error_of_options hostname path headers (status : Z) :
  get_error (Options hostname path headers) status
  = VError ("GET " ++ hostname ++ path ++ " returned "
                   ++ template (VNumber status)).
Proof. reflexivity. Qed.

(** C9 on the code.  When the registry answers 404, the error of the
    listing fetch names the host, the path and the status, but the error of
    the archive fetch names neither host nor path: [httpsGetAsync] is given
    the URL as a string there, and reads [hostname] and [path] off it. *)
Theorem archive_fetch_error_lacks_target
        (re_exec_all : string -> list (string * string))
        (tar_headers : string -> list string * option value) :
  scrapeMostDepended (always_status 404) re_exec_all (VNumber 36)
  = Rejects (VError "GET www.npmjs.com/browse/depended?offset=36 returned 404") /\
  downloadAndExtractPackage (always_status 404) tar_headers
                            "lodash" (VString "4.17.0")
  = Rejects (VError "GET undefinedundefined returned 404").
Proof. split; reflexivity. Qed.

(* ===================================================================== *)
(** * More on the batch runner *)
(* ===================================================================== *)

Lemma join_attained now ps t vs :
  join now ps = Fulfilled t vs ->
  t = now \/ exists v, In (Fulfilled t v) ps.
Proof.
  revert t vs. induction ps as [|p ps IH]; intros t vs H; cbn in H.
  - inversion H. now left.
  - destruct p as [tp v|tp ep|]; try discriminate.
    destruct (join now ps) as [t' vs'| |] eqn:E; try discriminate.
    inversion H; subst. destruct (Nat.max_spec tp t') as [[_ ->]|[_ ->]].
    + destruct (IH _ _ eq_refl) as [->|[w Hw]]; [now left|].
      right. exists w. now right.
    + right. exists v. now left.
Qed.

Section RunnerTimeline.

Variable func : list value -> settlement.
Variable latency : nat -> nat.

Abbreviation invoke_all := (invoke_all func latency).
Abbreviation promiseEach := (promiseEach func latency).

(** Case analysis on one call of [promiseEach]: how the join of the chunk
    ends and, when it is fulfilled, whether the array is empty. *)
Ltac chunk_cases :=
  rewrite promiseEach_step; cbv zeta;
  match goal with
  | |- context [Promise_all ?now ?ps] =>
      let Hall := fresh "Hall" in
      destruct (Promise_all now ps) as [?t ?results|?t ?e|] eqn:Hall;
      [ match goal with
        | |- context [(List.length ?l =? 0)%nat] =>
            let Hlen := fresh "Hlen" in
            destruct (Nat.eqb_spec (List.length l) 0) as [Hlen|Hlen]
        end
      | | ]
  end; cbn [outcome remaining calls].

Lemma invoke_all_numbers k n now ps :
  map inv_number (invoke_all k n now ps) = seq n (List.length ps).
Proof.
  revert n; induction ps as [|p ps IH]; intros n; cbn; [reflexivity|].
  now rewrite IH.
Qed.

Lemma invoke_all_number_range k n now ps c :
  In c (invoke_all k n now ps) ->
  (n <= inv_number c < n + List.length ps)%nat.
Proof.
  intros H. apply (in_map inv_number) in H.
  rewrite invoke_all_numbers in H. apply in_seq in H. lia.
Qed.

(** The calls are numbered in the order they are made. *)
Lemma promiseEach_numbers fuel k n now parameters mc :
  map inv_number (calls (promiseEach fuel k n now parameters mc))
  = seq n (List.length (calls (promiseEach fuel k n now parameters mc))).
Proof.
  revert k n now parameters mc.
  induction fuel as [|fuel IH]; intros k n now parameters mc; [reflexivity|].
  chunk_cases;
    try (rewrite invoke_all_numbers, invoke_all_length; reflexivity).
  rewrite map_app, length_app, seq_app, invoke_all_numbers, IH.
  now rewrite invoke_all_length.
Qed.

(** A fulfilled run: it is not fulfilled before it starts, and each of its
    calls is fulfilled by then. *)
Lemma promiseEach_fulfilled_calls fuel k n now parameters mc t vs :
  outcome (promiseEach fuel k n now parameters mc) = Some (Fulfilled t vs) ->
  (now <= t)%nat /\
  forall c, In c (calls (promiseEach fuel k n now parameters mc)) ->
            exists tp v, inv_promise c = Fulfilled tp v /\ (tp <= t)%nat.
Proof.
  revert k n now parameters mc t vs.
  induction fuel as [|fuel IH]; intros k n now parameters mc t vs;
    [discriminate|].
  chunk_cases; try discriminate.
  - intros H; inversion H; subst. split.
    + now apply Promise_all_fulfilled in Hall.
    + intros c Hc. eapply chunk_fulfilled; eassumption.
  - destruct (outcome _) as [[t' other| |]|] eqn:Hrest; try discriminate.
    intros H; inversion H; subst.
    destruct (IH _ _ _ _ _ _ _ Hrest) as [Hle Hcalls].
    pose proof (proj1 (Promise_all_fulfilled _ _ _ _ Hall)) as Hnow.
    split; [lia|]. intros c Hc. apply in_app_or in Hc.
    destruct Hc as [Hc|Hc]; [|auto].
    destruct (chunk_fulfilled _ _ _ _ _ Hall Hc) as (tp & v & E & Htp).
    exists tp, v. split; [exact E|lia].
Qed.

(** ... and it is fulfilled at the start or when one of its calls is. *)
Lemma promiseEach_fulfilled_when fuel k n now parameters mc t vs :
  outcome (promiseEach fuel k n now parameters mc) = Some (Fulfilled t vs) ->
  t = now \/
  exists c v, In c (calls (promiseEach fuel k n now parameters mc)) /\
              inv_promise c = Fulfilled t v.
Proof.
  revert k n now parameters mc t vs.
  induction fuel as [|fuel IH]; intros k n now parameters mc t vs;
    [discriminate|].
  assert (Hjoin : forall t0 results,
             Promise_all now
               (map inv_promise
                    (invoke_all k n now
                       (fst (splice0 parameters (default_limit mc)))))
             = Fulfilled t0 results ->
             t0 = now \/
             exists c v,
               In c (invoke_all k n now
                       (fst (splice0 parameters (default_limit mc)))) /\
               inv_promise c = Fulfilled t0 v).
  { intros t0 results Hall. unfold Promise_all in Hall.
    destruct (first_rejection _) as [[? ?]|]; [discriminate|].
    apply join_attained in Hall. destruct Hall as [->|[v Hv]]; [now left|].
    apply in_map_iff in Hv. destruct Hv as (c & Hc & Hin). right. eauto. }
  chunk_cases; try discriminate.
  - intros H; inversion H; subst. eauto.
  - destruct (outcome _) as [[t' other| |]|] eqn:Hrest; try discriminate.
    intros H; inversion H; subst.
    destruct (IH _ _ _ _ _ _ _ Hrest) as [->|(c & v & Hc & E)].
    + destruct (Hjoin _ _ eq_refl) as [->|(c & v & Hc & E)]; [now left|].
      right. exists c, v. split; [apply in_or_app; now left|exact E].
    + right. exists c, v. split; [apply in_or_app; now right|exact E].
Qed.

(** A call that never settles: the run is pending, or rejected by a call
    of the same chunk, and no later chunk is started. *)
Lemma promiseEach_pending_call fuel k n now parameters mc c :
  In c (calls (promiseEach fuel k n now parameters mc)) ->
  inv_promise c = Pending ->
  (outcome (promiseEach fuel k n now parameters mc) = Some Pending \/
   exists t e c',
     outcome (promiseEach fuel k n now parameters mc) = Some (Rejected t e) /\
     In c' (calls (promiseEach fuel k n now parameters mc)) /\
     inv_promise c' = Rejected t e /\ inv_chunk c' = inv_chunk c) /\
  forall d, In d (calls (promiseEach fuel k n now parameters mc)) ->
            (inv_chunk d <= inv_chunk c)%nat.
Proof.
  revert k n now parameters mc.
  induction fuel as [|fuel IH]; intros k n now parameters mc; [easy|].
  chunk_cases; intros Hin Hpend.
  - destruct (chunk_fulfilled _ _ _ _ _ Hall Hin) as (? & ? & E & _). congruence.
  - apply in_app_or in Hin. destruct Hin as [Hin|Hin].
    + destruct (chunk_fulfilled _ _ _ _ _ Hall Hin) as (? & ? & E & _).
      congruence.
    + destruct (IH _ _ _ _ _ Hin Hpend) as [Hout Hlast]. split.
      * destruct Hout as [->|(t' & e' & c' & -> & Hc' & E & Hchunk)];
          [now left|].
        right. exists t', e', c'. auto using in_or_app.
      * intros d Hd. apply in_app_or in Hd. destruct Hd as [Hd|Hd]; [|auto].
        apply invoke_all_In in Hd. apply promiseEach_calls_after in Hin. lia.
  - destruct (Promise_all_rejected _ _ _ _ Hall) as [Hfirst _].
    apply in_map_iff in Hfirst. destruct Hfirst as (c' & Hc' & Hin').
    split.
    + right. exists t, e, c'. repeat split; auto.
      apply invoke_all_In in Hin. apply invoke_all_In in Hin'. lia.
    + intros d Hd. apply invoke_all_In in Hin. apply invoke_all_In in Hd. lia.
  - split; [now left|].
    intros d Hd. apply invoke_all_In in Hin. apply invoke_all_In in Hd. lia.
Qed.

(** With a negative limit nothing is ever taken off a non-empty array. *)
Lemma promiseEach_negative_limit fuel k n now parameters (m : Z) :
  (m < 0)%Z -> parameters <> [] ->
  promiseEach fuel k n now parameters (Some m)
  = {| outcome := None; remaining := parameters; calls := [] |}.
Proof.
  intros Hm Hne. revert k n now.
  induction fuel as [|fuel IH]; intros k n now; [reflexivity|].
  rewrite promiseEach_step. cbv zeta.
  assert (Hd : default_limit (Some m) = m).
  { unfold default_limit; cbn. destruct (Z.eqb_spec m 0); [lia|reflexivity]. }
  rewrite Hd, splice0_nonpositive by lia. cbn [fst snd invoke_all map].
  change (Promise_all now []) with (@Fulfilled (list value) now []).
  destruct (Nat.eqb_spec (List.length parameters) 0) as [Hlen|_].
  - apply length_zero_iff_nil in Hlen. contradiction.
  - rewrite IH. reflexivity.
Qed.

(** The call numbered [i] belongs to chunk [i / limit]. *)
Lemma promiseEach_chunk_of_number fuel k n now parameters mc c :
  (1 <= default_limit mc)%Z ->
  n = (k * Z.to_nat (default_limit mc))%nat ->
  In c (calls (promiseEach fuel k n now parameters mc)) ->
  inv_chunk c = (inv_number c / Z.to_nat (default_limit mc))%nat.
Proof.
  revert k n now parameters mc.
  induction fuel as [|fuel IH]; intros k n now parameters mc Hm Hn; [easy|].
  pose proof (chunk_size_le parameters (default_limit mc)) as Hsize.
  assert (Hchunk : forall c,
             In c (invoke_all k n now
                     (fst (splice0 parameters (default_limit mc)))) ->
             inv_chunk c = (inv_number c / Z.to_nat (default_limit mc))%nat).
  { intros d Hd. pose proof (invoke_all_number_range _ _ _ _ _ Hd) as Hr.
    apply invoke_all_In in Hd. destruct Hd as (-> & _).
    apply (Nat.div_unique _ _ _ (inv_number d - n)); lia. }
  chunk_cases; intros Hin; auto.
  apply in_app_or in Hin. destruct Hin as [Hin|Hin]; [auto|].
  rewrite <- (default_limit_idem mc).
  eapply IH; [now rewrite default_limit_idem| |exact Hin].
  rewrite default_limit_idem.
  pose proof (splice0_length_fst parameters (default_limit mc)) as Hfst.
  pose proof (splice0_length_snd parameters (default_limit mc)) as Hsnd.
  lia.
Qed.

End RunnerTimeline.

(** X1. On an empty array [promiseEach] is fulfilled at once with the empty
    list, whatever the limit, and the transform is not called. *)
Theorem promiseEach_empty_input
        (func : list value -> settlement) (latency : nat -> nat)
        (fuel k n now : nat) (maxConcurrent : option Z) :
  promiseEach func latency (S fuel) k n now [] maxConcurrent
  = {| outcome := Some (Fulfilled now []); remaining := []; calls := [] |}.
Proof.
  rewrite promiseEach_step. cbv zeta.
  assert (E : splice0 (@nil value) (default_limit maxConcurrent) = ([], [])).
  { unfold splice0. now rewrite firstn_nil, skipn_nil. }
  rewrite E. reflexivity.
Qed.

(** X2. With a negative limit and a non-empty array, [promiseEach] never
    calls the transform, leaves the array as it is and calls itself for
    ever: no amount of fuel gives its promise an outcome. *)
Theorem promiseEach_negative_limit_never_settles
        (func : list value -> settlement) (latency : nat -> nat)
        (fuel now : nat) (inputs : list value) (m : Z) :
  (m < 0)%Z -> inputs <> [] ->
  promiseEach func latency fuel 0 0 now inputs (Some m)
  = {| outcome := None; remaining := inputs; calls := [] |}.
Proof. intros Hm Hne. now apply promiseEach_negative_limit. Qed.

Lemma promiseEach_negative_limit_never_settles_witness :
  promiseEach echo (fun n => n) 100 0 0 0 [VString "a"; VString "b"]
              (Some (-3)%Z)
  = {| outcome := None; remaining := [VString "a"; VString "b"];
       calls := [] |}.
Proof.
  apply (promiseEach_negative_limit_never_settles
           echo (fun n => n) 100 0 [VString "a"; VString "b"] (-3)).
  - lia.
  - discriminate.
Defined.

(** X3. A fulfilled run has called the transform exactly once for every
    element of the array, in the order of the array (calls numbered
    0, 1, 2, ...), and every one of those calls was fulfilled, no later than
    the run. *)
Theorem promiseEach_calls_each_input_once
        (func : list value -> settlement) (latency : nat -> nat)
        (fuel now : nat) (inputs : list value) (maxConcurrent : option Z)
        (t : nat) (vs : list value) :
  outcome (promiseEach func latency fuel 0 0 now inputs maxConcurrent)
  = Some (Fulfilled t vs) ->
  map inv_args (calls (promiseEach func latency fuel 0 0 now inputs
                                   maxConcurrent))
  = map arguments_of inputs /\
  map inv_number (calls (promiseEach func latency fuel 0 0 now inputs
                                     maxConcurrent))
  = seq 0 (List.length inputs) /\
  forall c,
    In c (calls (promiseEach func latency fuel 0 0 now inputs maxConcurrent)) ->
    exists tp v, inv_promise c = Fulfilled tp v /\ (tp <= t)%nat.
Proof.
  intros H.
  destruct (promiseEach_consumes func latency fuel 0 0 now inputs maxConcurrent)
    as (consumed & Hparts & Hargs).
  destruct (promiseEach_fulfilled func latency _ _ _ _ _ _ _ _ H) as (Hrem & _).
  rewrite Hrem, app_nil_r in Hparts. subst consumed.
  split; [exact Hargs|]. split.
  - rewrite promiseEach_numbers. f_equal.
    rewrite <- (length_map inv_args), Hargs. apply length_map.
  - now apply (promiseEach_fulfilled_calls func latency) in H.
Qed.

Lemma promiseEach_calls_each_input_once_witness :
  map inv_args (calls (promiseEach echo (fun n => n) 4 0 0 0
                         [VNumber 1; VArray [VNumber 2; VNumber 3]; VString "a"]
                         (Some 2%Z)))
  = [[VNumber 1]; [VNumber 2; VNumber 3]; [VString "a"]].
Proof.
  apply (promiseEach_calls_each_input_once
           echo (fun n => n) 4 0
           [VNumber 1; VArray [VNumber 2; VNumber 3]; VString "a"]
           (Some 2%Z) 3
           [VNumber 1; VNumber 2; VNumber 3; VString "a"]).
  reflexivity.
Defined.

(** X4. With a limit [M] of at least 1 the chunks are consecutive blocks of
    [M] calls: the call numbered [i] belongs to chunk [i / M], and its
    number is below the length of the array. *)
Theorem promiseEach_chunks_are_blocks
        (func : list value -> settlement) (latency : nat -> nat)
        (fuel now : nat) (inputs : list value) (M : Z) (c : invocation) :
  (1 <= M)%Z ->
  In c (calls (promiseEach func latency fuel 0 0 now inputs (Some M))) ->
  inv_chunk c = (inv_number c / Z.to_nat M)%nat /\
  (inv_number c < List.length inputs)%nat.
Proof.
  intros HM Hin. split.
  - rewrite <- (default_limit_pos M HM).
    apply (promiseEach_chunk_of_number func latency fuel 0 0 now inputs
                                       (Some M) c);
      [rewrite default_limit_pos; lia|reflexivity|exact Hin].
  - destruct (promiseEach_consumes func latency fuel 0 0 now inputs (Some M))
      as (consumed & Hparts & Hargs).
    apply (in_map inv_number) in Hin.
    rewrite promiseEach_numbers in Hin. apply in_seq in Hin.
    apply (f_equal (@List.length _)) in Hargs. rewrite !length_map in Hargs.
    apply (f_equal (@List.length _)) in Hparts. rewrite length_app in Hparts.
    lia.
Qed.

Lemma promiseEach_chunks_are_blocks_witness :
  inv_chunk {| inv_chunk := 1; inv_number := 2; inv_args := [VNumber 3];
               inv_start := 1; inv_promise := Fulfilled 3 (VArray [VNumber 3]) |}
  = (2 / Z.to_nat 2)%nat /\
  (2 < List.length (map VNumber [1; 2; 3]%Z))%nat.
Proof.
  apply (promiseEach_chunks_are_blocks
           echo (fun n => n) 4 0 (map VNumber [1; 2; 3]%Z) 2
           {| inv_chunk := 1; inv_number := 2; inv_args := [VNumber 3];
              inv_start := 1;
              inv_promise := Fulfilled 3 (VArray [VNumber 3]) |}).
  - lia.
  - right. right. left. reflexivity.
Defined.

(** X5. When the promise of a call never settles, the promise of the run is
    never fulfilled: it stays pending, unless a call of the same chunk is
    rejected, which rejects the run; and no call of a later chunk is ever
    made. *)
Theorem promiseEach_pending_call_blocks
        (func : list value -> settlement) (latency : nat -> nat)
        (fuel now : nat) (inputs : list value) (maxConcurrent : option Z)
        (c : invocation) :
  In c (calls (promiseEach func latency fuel 0 0 now inputs maxConcurrent)) ->
  inv_promise c = Pending ->
  (outcome (promiseEach func latency fuel 0 0 now inputs maxConcurrent)
   = Some Pending \/
   exists t e c',
     outcome (promiseEach func latency fuel 0 0 now inputs maxConcurrent)
     = Some (Rejected t e) /\
     In c' (calls (promiseEach func latency fuel 0 0 now inputs maxConcurrent)) /\
     inv_promise c' = Rejected t e /\ inv_chunk c' = inv_chunk c) /\
  forall d,
    In d (calls (promiseEach func latency fuel 0 0 now inputs maxConcurrent)) ->
    (inv_chunk d <= inv_chunk c)%nat.
Proof. apply promiseEach_pending_call. Qed.

Lemma promiseEach_pending_call_blocks_witness :
  (outcome (promiseEach (fun _ => NeverSettles) (fun n => n) 4 0 0 0
              (map VNumber [1; 2; 3]%Z) (Some 2%Z))
   = Some Pending \/
   exists t e c',
     outcome (promiseEach (fun _ => NeverSettles) (fun n => n) 4 0 0 0
                (map VNumber [1; 2; 3]%Z) (Some 2%Z))
     = Some (Rejected t e) /\
     In c' (calls (promiseEach (fun _ => NeverSettles) (fun n => n) 4 0 0 0
                     (map VNumber [1; 2; 3]%Z) (Some 2%Z))) /\
     inv_promise c' = Rejected t e /\ inv_chunk c' = 0%nat) /\
  forall d,
    In d (calls (promiseEach (fun _ => NeverSettles) (fun n => n) 4 0 0 0
                   (map VNumber [1; 2; 3]%Z) (Some 2%Z))) ->
    (inv_chunk d <= 0)%nat.
Proof.
  apply (promiseEach_pending_call_blocks
           (fun _ => NeverSettles) (fun n => n) 4 0
           (map VNumber [1; 2; 3]%Z) (Some 2%Z)
           {| inv_chunk := 0; inv_number := 0; inv_args := [VNumber 1];
              inv_start := 0; inv_promise := Pending |}).
  - left. reflexivity.
  - reflexivity.
Defined.

(** X6. A run adds no delay of its own: it is fulfilled at the instant it
    starts (when it makes no call, or only calls that are fulfilled at
    once) or at the instant one of its calls is fulfilled, and never
    before it starts. *)
Theorem promiseEach_fulfilled_without_delay
        (func : list value -> settlement) (latency : nat -> nat)
        (fuel now : nat) (inputs : list value) (maxConcurrent : option Z)
        (t : nat) (vs : list value) :
  outcome (promiseEach func latency fuel 0 0 now inputs maxConcurrent)
  = Some (Fulfilled t vs) ->
  (now <= t)%nat /\
  (t = now \/
   exists c v,
     In c (calls (promiseEach func latency fuel 0 0 now inputs maxConcurrent)) /\
     inv_promise c = Fulfilled t v).
Proof.
  intros H. split.
  - now apply (promiseEach_fulfilled_calls func latency) in H.
  - now apply (promiseEach_fulfilled_when func latency) in H.
Qed.

Lemma promiseEach_fulfilled_without_delay_witness :
  (7 <= 12)%nat /\
  (12 = 7 \/
   exists c v,
     In c (calls (promiseEach echo (fun n => (n + 1)%nat) 4 0 0 7
                    (map VNumber [1; 2; 3]%Z) (Some 2%Z))) /\
     inv_promise c = Fulfilled 12 v).
Proof.
  apply (promiseEach_fulfilled_without_delay
           echo (fun n => (n + 1)%nat) 4 7 (map VNumber [1; 2; 3]%Z)
           (Some 2%Z) 12 (map VNumber [1; 2; 3]%Z)).
  reflexivity.
Defined.

(* ===================================================================== *)
(** * More on the archive fetcher *)
(* ===================================================================== *)

Lemma take_drop (n : nat) (s : string) : (take n s ++ drop n s)%string = s.
Proof.
  revert s. induction n as [|n IH]; intros s; [reflexivity|].
  destruct s as [|c s]; [reflexivity|]. cbn. now rewrite IH.
Qed.

Lemma length_drop (n : nat) (s : string) :
  String.length (drop n s) = (String.length s - n)%nat.
Proof.
  revert s. induction n as [|n IH]; intros s; [cbn; lia|].
  destruct s as [|c s]; [reflexivity|]. cbn. apply IH.
Qed.

(** Cutting a string in two with [slice] loses nothing. *)
Lemma slice_rejoin (s : string) (i : Z) :
  (0 <= i)%Z -> (slice s 0 (Some i) ++ slice s i None)%string = s.
Proof.
  intros Hi. unfold slice, relative_index.
  destruct (Z.ltb_spec 0 0); [lia|]. destruct (Z.ltb_spec i 0); [lia|].
  set (len := Z.of_nat (String.length s)).
  assert (Hlen : (0 <= len)%Z) by (unfold len; lia).
  replace (Z.to_nat (Z.min 0 len)) with 0%nat by lia. cbn [drop].
  replace (Z.to_nat (Z.max (Z.min i len - Z.min 0 len) 0))
    with (Z.to_nat (Z.min i len)) by lia.
  replace (Z.to_nat (Z.max (len - Z.min i len) 0))
    with (String.length (drop (Z.to_nat (Z.min i len)) s)).
  2:{ rewrite length_drop. unfold len. lia. }
  rewrite take_all. apply take_drop.
Qed.

Lemma indexOf_from_lower (from : Z) (s search : string) :
  (0 <= from)%Z -> (-1 <= indexOf_from from s search)%Z.
Proof.
  revert from. induction s as [|c s IH]; intros from Hfrom;
    cbn [indexOf_from].
  - destruct (String.prefix search ""); lia.
  - destruct (String.prefix search (String c s)); [lia|]. apply IH. lia.
Qed.

Lemma indexOf_from_absent (c : ascii) (s : string) (from : Z) :
  ~ In c (list_ascii_of_string s) ->
  indexOf_from from s (String c EmptyString) = (-1)%Z.
Proof.
  revert from. induction s as [|d s IH]; intros from Hnot; [reflexivity|].
  cbn [indexOf_from String.prefix].
  destruct (ascii_dec c d) as [->|Hcd].
  - exfalso. apply Hnot. now left.
  - apply IH. intros Hin. apply Hnot. now right.
Qed.

(** X7. Splitting a package name into [org] and [name] loses nothing:
    [org] followed by [name] is always the package name, so the path of the
    tarball always begins with the full package name. *)
Theorem org_and_name_rejoin (pkg : string) (version : value) :
  (fst (org_and_name pkg) ++ snd (org_and_name pkg))%string = pkg /\
  tarball_path pkg version
  = (pkg ++ "/-/" ++ snd (org_and_name pkg) ++ "-" ++ template version
         ++ ".tgz")%string.
Proof.
  assert (H : (fst (org_and_name pkg) ++ snd (org_and_name pkg))%string = pkg).
  { unfold org_and_name. destruct (startsWith pkg "@"); [|reflexivity].
    cbn [fst snd]. apply slice_rejoin.
    pose proof (indexOf_from_lower 0 pkg "/"). unfold indexOf. lia. }
  split; [exact H|].
  unfold tarball_path. destruct (org_and_name pkg) as [org name].
  cbn [fst snd] in *. rewrite <- H. now rewrite append_assoc.
Qed.

(** X8. A name that starts with "@" but has no "/" in it is not split:
    [indexOf] gives -1, so [org] is empty and [name] is the whole name,
    "@" included. *)
Theorem org_and_name_without_slash (pkg : string) (version : value) :
  startsWith pkg "@" = true ->
  ~ In "/"%char (list_ascii_of_string pkg) ->
  org_and_name pkg = (EmptyString, pkg) /\
  tarball_path pkg version
  = (pkg ++ "/-/" ++ pkg ++ "-" ++ template version ++ ".tgz")%string.
Proof.
  intros Hat Hno.
  assert (E : org_and_name pkg = (EmptyString, pkg)).
  { unfold org_and_name. rewrite Hat. unfold indexOf.
    rewrite (indexOf_from_absent "/" pkg 0 Hno).
    change (-1 + 1)%Z with 0%Z. f_equal.
    - unfold slice, relative_index. cbn.
      replace (Z.to_nat _) with 0%nat by lia. reflexivity.
    - pose proof (slice_rejoin pkg 0 ltac:(lia)) as H.
      assert (E0 : slice pkg 0 (Some 0%Z) = EmptyString).
      { unfold slice, relative_index. cbn.
        replace (Z.to_nat _) with 0%nat by lia. reflexivity. }
      now rewrite E0 in H. }
  split; [exact E|]. unfold tarball_path. now rewrite E.
Qed.

Lemma org_and_name_without_slash_witness :
  org_and_name "@types" = (EmptyString, "@types") /\
  tarball_path "@types" (VString "1.0.0") = "@types/-/@types-1.0.0.tgz".
Proof.
  apply (org_and_name_without_slash "@types" (VString "1.0.0")).
  - reflexivity.
  - cbn. intuition discriminate.
Defined.

Lemma hexDigit_inverse :
  exists value_of : ascii -> nat,
    forall n, (n < 16)%nat -> value_of (hexDigit n) = n.
Proof.
  exists (fun c => (if (nat_of_ascii c <? 58) then nat_of_ascii c - 48
                    else nat_of_ascii c - 55)%nat).
  intros n Hn.
  do 16 (destruct n as [|n]; [reflexivity|]). lia.
Qed.

Lemma hex_pair_injective (c d : ascii) :
  hexDigit (nat_of_ascii c / 16) = hexDigit (nat_of_ascii d / 16) ->
  hexDigit (nat_of_ascii c mod 16) = hexDigit (nat_of_ascii d mod 16) ->
  c = d.
Proof.
  intros Hhi Hlo. destruct hexDigit_inverse as [value_of Hv].
  pose proof (nat_ascii_bounded c) as Hc.
  pose proof (nat_ascii_bounded d) as Hd.
  assert (Hc1 : (nat_of_ascii c / 16 < 16)%nat)
    by (apply Nat.Div0.div_lt_upper_bound; lia).
  assert (Hd1 : (nat_of_ascii d / 16 < 16)%nat)
    by (apply Nat.Div0.div_lt_upper_bound; lia).
  assert (Hc2 : (nat_of_ascii c mod 16 < 16)%nat)
    by (apply Nat.mod_upper_bound; lia).
  assert (Hd2 : (nat_of_ascii d mod 16 < 16)%nat)
    by (apply Nat.mod_upper_bound; lia).
  apply (f_equal value_of) in Hhi, Hlo.
  rewrite !Hv in Hhi, Hlo by assumption.
  rewrite <- (ascii_nat_embedding c), <- (ascii_nat_embedding d). f_equal.
  rewrite (Nat.div_mod_eq (nat_of_ascii c) 16),
          (Nat.div_mod_eq (nat_of_ascii d) 16).
  congruence.
Qed.

Lemma encodeURIComponent_injective (s1 s2 : string) :
  encodeURIComponent s1 = encodeURIComponent s2 -> s1 = s2.
Proof.
  revert s2.
  induction s1 as [|c s1 IH]; intros [|d s2] H; cbn in H.
  - reflexivity.
  - destruct (uriUnreserved d); discriminate.
  - destruct (uriUnreserved c); discriminate.
  - destruct (uriUnreserved c) eqn:Ec, (uriUnreserved d) eqn:Ed.
    + inversion H; subst. f_equal. now apply IH.
    + inversion H; subst. vm_compute in Ec. discriminate.
    + inversion H; subst. vm_compute in Ed. discriminate.
    + inversion H as [[Hhi Hlo Htail]].
      rewrite (hex_pair_injective c d Hhi Hlo). f_equal. now apply IH.
Qed.

(** X9. [encodeURIComponent] is one to one: two different package names
    never get the same folder name. *)
Theorem folderName_injective (pkg1 pkg2 : string) :
  folderName pkg1 = folderName pkg2 -> pkg1 = pkg2.
Proof. unfold folderName. apply encodeURIComponent_injective. Qed.

Lemma folderName_injective_witness :
  ("@a" ++ "/b")%string = "@a/b".
Proof.
  apply (folderName_injective ("@a" ++ "/b") "@a/b"). reflexivity.
Defined.

(** X10. The folder name is a single path segment: it contains no "/",
    only unreserved characters and per cent signs; and it is the package
    name itself when that has only unreserved characters. *)
Theorem folderName_is_one_segment (pkg : string) :
  ~ In "/"%char (list_ascii_of_string (folderName pkg)) /\
  (forall c, In c (list_ascii_of_string (folderName pkg)) ->
             uriUnreserved c = true \/ c = "%"%char) /\
  (forallb uriUnreserved (list_ascii_of_string pkg) = true ->
   folderName pkg = pkg).
Proof.
  unfold folderName. repeat split.
  - apply encodeURIComponent_no_slash.
  - apply encodeURIComponent_chars.
  - induction pkg as [|c s IH]; [reflexivity|]. cbn.
    intros H. apply andb_prop in H. destruct H as [-> H].
    now rewrite IH.
Qed.

Lemma folderName_is_one_segment_witness :
  folderName "lodash.merge" = "lodash.merge".
Proof.
  apply (folderName_is_one_segment "lodash.merge"). reflexivity.
Defined.

(* ===================================================================== *)
(** * More on the pipeline *)
(* ===================================================================== *)

Section PipelineFacts.

Variable https_get : request -> option response.
Variable re_exec_all : string -> list (string * string).
Variable tar_headers : string -> list string * option value.
Variable lat1 lat2 : nat -> nat.

Abbreviation scrape := (scrape_transform https_get re_exec_all).
Abbreviation download := (download_transform https_get tar_headers).
Abbreviation stage1 fuel now count :=
  (promiseEach scrape lat1 fuel 0 0 now (map VNumber (offsets count))
               (Some 3%Z)).
Abbreviation stage2 fuel t count mostDepended :=
  (promiseEach download lat2 fuel 0 0 t
               (firstn (Z.to_nat count) mostDepended) (Some 3%Z)).
Abbreviation pipeline_run fuel now count :=
  (downloadPackages https_get re_exec_all tar_headers lat1 lat2
                    fuel now count).

(** The run of the pipeline when the listing stage is fulfilled. *)
Lemma downloadPackages_listed fuel now count t mostDepended :
  outcome (stage1 fuel now count) = Some (Fulfilled t mostDepended) ->
  pipeline_run fuel now count
  = {| listing := stage1 fuel now count;
       toBeDownloaded := Some (firstn (Z.to_nat count) mostDepended);
       extraction := Some (stage2 fuel t count mostDepended);
       callback :=
         match outcome (stage2 fuel t count mostDepended) with
         | Some (Fulfilled t' _) => Some (Success t')
         | Some (Rejected t' err) => Some (Failure t' err)
         | Some Pending => Some Silence
         | None => None
         end |}.
Proof.
  intros H. unfold downloadPackages. rewrite H.
  assert (Hsplice : splice0 mostDepended count
                    = (firstn (Z.to_nat count) mostDepended,
                       snd (splice0 mostDepended count))).
  { rewrite <- splice0_truncates. now destruct (splice0 mostDepended count). }
  now rewrite Hsplice.
Qed.

(** ... and when it is not. *)
Lemma downloadPackages_not_listed fuel now count :
  (forall t mostDepended,
      outcome (stage1 fuel now count) <> Some (Fulfilled t mostDepended)) ->
  pipeline_run fuel now count
  = {| listing := stage1 fuel now count;
       toBeDownloaded := None;
       extraction := None;
       callback :=
         match outcome (stage1 fuel now count) with
         | Some (Rejected t err) => Some (Failure t err)
         | Some _ => Some Silence
         | None => None
         end |}.
Proof.
  intros H. unfold downloadPackages.
  destruct (outcome _) as [[t md|t e|]|]; try reflexivity.
  exfalso. now apply (H t md).
Qed.

(** What a listing call is fulfilled with: pairs of strings. *)
Lemma scrape_yields_pairs (args : list value) (x : value) :
  In x (sequence_of (scrape args)) ->
  exists name version, x = VArray [VString name; VString version].
Proof.
  unfold scrape_transform, scrapeMostDepended.
  destruct (httpsGetAsync _ _) as [[err|response]|]; cbn; try easy.
  destruct (gunzip response) as [[|c text]|err]; cbn; try easy.
  intros H. apply in_map_iff in H. destruct H as ([name version] & <- & _).
  now exists name, version.
Qed.

Lemma listed_pairs fuel now count t mostDepended x :
  outcome (stage1 fuel now count) = Some (Fulfilled t mostDepended) ->
  In x mostDepended ->
  exists name version, x = VArray [VString name; VString version].
Proof.
  intros H Hx. apply promiseEach_fulfilled in H. destruct H as (_ & _ & ->).
  apply in_flat_map in Hx. destruct Hx as (o & _ & Hx).
  eapply scrape_yields_pairs. exact Hx.
Qed.

(** A download is fulfilled with the name of its package only. *)
Lemma download_fulfils_with_name pkg version v :
  downloadAndExtractPackage https_get tar_headers pkg version = Fulfils v ->
  v = VString pkg.
Proof.
  unfold downloadAndExtractPackage.
  destruct (httpsGetAsync _ _) as [[err|response]|]; try discriminate.
  destruct (gunzip response); try discriminate.
  destruct (snd (tar_headers text)); try discriminate.
  now intros [= <-].
Qed.

Lemma flat_map_ext_in {A B : Type} (f g : A -> list B) (l : list A) :
  (forall x, In x l -> f x = g x) -> flat_map f l = flat_map g l.
Proof.
  induction l as [|a l IH]; intros H; [reflexivity|]. cbn.
  rewrite (H a (or_introl eq_refl)), IH; [reflexivity|].
  intros x Hx. apply H. now right.
Qed.

Lemma offsets_length (count : Z) :
  (List.length (offsets count) <= Z.to_nat count)%nat.
Proof.
  unfold offsets. rewrite offsets_from_spec by lia.
  rewrite length_map, length_seq.
  pose proof (ceil_div_bounds (count - 0)). lia.
Qed.

End PipelineFacts.

(** What the promise of a recorded call is: that of the transform on the
    arguments of the call. *)
Lemma promiseEach_call_promise
      (func : list value -> settlement) (latency : nat -> nat)
      (fuel k n now : nat) (parameters : list value) (mc : option Z)
      (c : invocation) :
  In c (calls (promiseEach func latency fuel k n now parameters mc)) ->
  inv_promise c
  = settle (inv_start c) (latency (inv_number c)) (func (inv_args c)).
Proof.
  revert k n now parameters mc.
  induction fuel as [|fuel IH]; intros k n now parameters mc; [easy|].
  assert (Hchunk : forall ps,
             In c (invoke_all func latency k n now ps) ->
             inv_promise c
             = settle (inv_start c) (latency (inv_number c))
                      (func (inv_args c))).
  { intros ps H. apply invoke_all_In in H. destruct H as (_ & -> & H).
    exact H. }
  rewrite promiseEach_step. cbv zeta.
  destruct (Promise_all _ _) as [t results|t e|]; cbn [calls]; eauto.
  destruct (Nat.eqb _ _); cbn [calls]; eauto.
  intros H. apply in_app_or in H. destruct H as [H|H]; eauto.
Qed.

(** X11. The two stages fit together.  Every entry the listing stage is
    fulfilled with is an array of a name and a version, both strings; so
    every call made in the extraction stage has exactly those two
    arguments and is [downloadAndExtractPackage(name, version)]: the
    extraction stage never calls it with anything but two strings. *)
Theorem listing_entries_are_download_arguments
        (https_get : request -> option response)
        (re_exec_all : string -> list (string * string))
        (tar_headers : string -> list string * option value)
        (lat1 lat2 : nat -> nat) (fuel now : nat) (count : Z)
        (t : nat) (mostDepended : list value) :
  outcome (listing (downloadPackages https_get re_exec_all tar_headers
                                     lat1 lat2 fuel now count))
  = Some (Fulfilled t mostDepended) ->
  (forall x,
      In x mostDepended ->
      exists name version,
        x = VArray [VString name; VString version] /\
        applied (download_transform https_get tar_headers) x
        = downloadAndExtractPackage https_get tar_headers name
                                    (VString version)) /\
  (forall stage2 c,
      extraction (downloadPackages https_get re_exec_all tar_headers
                                   lat1 lat2 fuel now count) = Some stage2 ->
      In c (calls stage2) ->
      exists name version,
        In (VArray [VString name; VString version])
           (firstn (Z.to_nat count) mostDepended) /\
        inv_args c = [VString name; VString version] /\
        inv_promise c
        = settle (inv_start c) (lat2 (inv_number c))
                 (downloadAndExtractPackage https_get tar_headers name
                                            (VString version))).
Proof.
  intros H. rewrite listing_stage in H.
  assert (Hpairs : forall x, In x mostDepended ->
                             exists name version,
                               x = VArray [VString name; VString version]).
  { intros x Hx.
    exact (listed_pairs https_get re_exec_all lat1 fuel now count t
                        mostDepended x H Hx). }
  split.
  - intros x Hx. destruct (Hpairs x Hx) as (name & version & ->).
    now exists name, version.
  - intros stage2 c Hex Hc.
    rewrite (downloadPackages_listed https_get re_exec_all tar_headers lat1 lat2
                                     fuel now count t mostDepended H) in Hex.
    cbn [extraction] in Hex. inversion Hex; subst stage2.
    pose proof (promiseEach_call_promise _ _ _ _ _ _ _ _ _ Hc) as Hpromise.
    destruct (promiseEach_consumes
                (download_transform https_get tar_headers) lat2 fuel 0 0 t
                (firstn (Z.to_nat count) mostDepended) (Some 3%Z))
      as (consumed & Hparts & Hargs).
    apply (in_map inv_args) in Hc. rewrite Hargs in Hc.
    apply in_map_iff in Hc. destruct Hc as (x & Hx & Hin).
    assert (Hfirst : In x (firstn (Z.to_nat count) mostDepended)).
    { rewrite Hparts. apply in_or_app. now left. }
    assert (Hmd : In x mostDepended).
    { rewrite <- (firstn_skipn (Z.to_nat count) mostDepended).
      apply in_or_app. now left. }
    destruct (Hpairs x Hmd) as (name & version & ->).
    exists name, version. cbn in Hx. rewrite <- Hx in Hpromise.
    repeat split; auto.
Qed.

Lemma listing_entries_are_download_arguments_witness :
  exists name version,
    In (VArray [VString name; VString version])
       (firstn (Z.to_nat 2)
               [VArray [VString "lodash"; VString "4.17.0"];
                VArray [VString "@angular/core"; VString "2.0.0"]]) /\
    [VString "@angular/core"; VString "2.0.0"]
    = [VString name; VString version] /\
    Fulfilled 1 (VString "@angular/core")
    = settle 0 1
             (downloadAndExtractPackage (always_page "<html>") one_entry name
                                        (VString version)).
Proof.
  apply (proj2 (listing_entries_are_download_arguments
                  (always_page "<html>") two_matches one_entry
                  (fun n => n) (fun n => n) 4 0 2 0
                  [VArray [VString "lodash"; VString "4.17.0"];
                   VArray [VString "@angular/core"; VString "2.0.0"]]
                  eq_refl)
               (promiseEach (download_transform (always_page "<html>") one_entry)
                            (fun n => n) 4 0 0 0
                            [VArray [VString "lodash"; VString "4.17.0"];
                             VArray [VString "@angular/core"; VString "2.0.0"]]
                            (Some 3%Z))
               {| inv_chunk := 0; inv_number := 1;
                  inv_args := [VString "@angular/core"; VString "2.0.0"];
                  inv_start := 0;
                  inv_promise := Fulfilled 1 (VString "@angular/core") |}
               eq_refl).
  right. left. reflexivity.
Defined.

(** X12. When the callback is called without an error, both stages were
    fulfilled: a listing page was requested for every offset, in order;
    [downloadAndExtractPackage] was called exactly once for each of the
    first [count] entries of the listing, in order; and the value of the
    extraction stage is the names of those packages, in order. *)
Theorem downloadPackages_success
        (https_get : request -> option response)
        (re_exec_all : string -> list (string * string))
        (tar_headers : string -> list string * option value)
        (lat1 lat2 : nat -> nat) (fuel now : nat) (count : Z) (t' : nat) :
  callback (downloadPackages https_get re_exec_all tar_headers
                             lat1 lat2 fuel now count)
  = Some (Success t') ->
  exists t mostDepended stage2 names,
    outcome (listing (downloadPackages https_get re_exec_all tar_headers
                                       lat1 lat2 fuel now count))
    = Some (Fulfilled t mostDepended) /\
    map inv_args
        (calls (listing (downloadPackages https_get re_exec_all tar_headers
                                          lat1 lat2 fuel now count)))
    = map (fun offset => [VNumber offset]) (offsets count) /\
    extraction (downloadPackages https_get re_exec_all tar_headers
                                 lat1 lat2 fuel now count)
    = Some stage2 /\
    outcome stage2 = Some (Fulfilled t' names) /\
    map inv_args (calls stage2)
    = map arguments_of (firstn (Z.to_nat count) mostDepended) /\
    names = flat_map (fun entry => match entry with
                                   | VArray (name :: _) => [name]
                                   | _ => []
                                   end)
                     (firstn (Z.to_nat count) mostDepended).
Proof.
  intros Hcb.
  destruct (outcome (promiseEach (scrape_transform https_get re_exec_all) lat1
                                 fuel 0 0 now (map VNumber (offsets count))
                                 (Some 3%Z)))
    as [[t md|t e|]|] eqn:H1.
  2-4: unfold downloadPackages in Hcb; rewrite H1 in Hcb; discriminate.
  rewrite (downloadPackages_listed https_get re_exec_all tar_headers lat1 lat2
                                   fuel now count t md H1) in *.
  cbn [listing extraction callback] in *.
  destruct (outcome (promiseEach (download_transform https_get tar_headers) lat2
                                 fuel 0 0 t (firstn (Z.to_nat count) md)
                                 (Some 3%Z)))
    as [[t2 names|t2 e2|]|] eqn:H2; try discriminate.
  inversion Hcb; subst t2.
  exists t, md, (promiseEach (download_transform https_get tar_headers) lat2
                             fuel 0 0 t (firstn (Z.to_nat count) md)
                             (Some 3%Z)), names.
  pose proof (promiseEach_fulfilled _ _ _ _ _ _ _ _ _ _ H1) as (Hrem1 & _ & _).
  pose proof (promiseEach_fulfilled _ _ _ _ _ _ _ _ _ _ H2)
    as (Hrem2 & Hful & Hnames).
  destruct (promiseEach_consumes
              (scrape_transform https_get re_exec_all) lat1 fuel 0 0 now
              (map VNumber (offsets count)) (Some 3%Z))
    as (consumed1 & Hparts1 & Hargs1).
  destruct (promiseEach_consumes
              (download_transform https_get tar_headers) lat2 fuel 0 0 t
              (firstn (Z.to_nat count) md) (Some 3%Z))
    as (consumed2 & Hparts2 & Hargs2).
  rewrite Hrem1, app_nil_r in Hparts1. rewrite Hrem2, app_nil_r in Hparts2.
  subst consumed1 consumed2.
  repeat split; auto.
  - rewrite Hargs1, map_map. reflexivity.
  - rewrite Hnames. apply flat_map_ext_in. intros x Hx.
    assert (Hmd : In x md).
    { rewrite <- (firstn_skipn (Z.to_nat count) md).
      apply in_or_app. now left. }
    destruct (listed_pairs https_get re_exec_all lat1 fuel now count t md x
                           H1 Hmd) as (name & version & ->).
    rewrite Forall_forall in Hful.
    destruct (Hful _ (in_map _ _ _ Hx)) as [v Hv].
    rewrite Hv. cbn in Hv.
    apply download_fulfils_with_name in Hv. now subst v.
Qed.

Lemma downloadPackages_success_witness :
  exists t mostDepended,
    outcome (listing (downloadPackages (always_page "<html>") two_matches one_entry
                                       (fun n => n) (fun n => n) 4 0 1))
    = Some (Fulfilled t mostDepended).
Proof.
  destruct (downloadPackages_success
              (always_page "<html>") two_matches one_entry
              (fun n => n) (fun n => n) 4 0 1 0 eq_refl)
    as (t & mostDepended & _ & _ & H & _).
  exists t, mostDepended. exact H.
Defined.

(** X13. A [count] that is not positive gives no offsets: the callback is
    called without an error at once, and not a single request is made. *)
Theorem downloadPackages_nothing_to_do
        (https_get : request -> option response)
        (re_exec_all : string -> list (string * string))
        (tar_headers : string -> list string * option value)
        (lat1 lat2 : nat -> nat) (fuel now : nat) (count : Z) :
  (count <= 0)%Z ->
  callback (downloadPackages https_get re_exec_all tar_headers
                             lat1 lat2 (S fuel) now count)
  = Some (Success now) /\
  calls (listing (downloadPackages https_get re_exec_all tar_headers
                                   lat1 lat2 (S fuel) now count)) = [] /\
  exists stage2,
    extraction (downloadPackages https_get re_exec_all tar_headers
                                 lat1 lat2 (S fuel) now count)
    = Some stage2 /\
    calls stage2 = [].
Proof.
  intros Hcount.
  assert (Hoff : offsets count = []).
  { unfold offsets. replace (Z.to_nat count) with 0%nat by lia. reflexivity. }
  assert (H1 : promiseEach (scrape_transform https_get re_exec_all) lat1
                           (S fuel) 0 0 now (map VNumber (offsets count))
                           (Some 3%Z)
               = {| outcome := Some (Fulfilled now []); remaining := [];
                    calls := [] |}).
  { rewrite Hoff. reflexivity. }
  rewrite (downloadPackages_listed https_get re_exec_all tar_headers lat1 lat2
                                   (S fuel) now count now []);
    [|now rewrite H1].
  rewrite H1, firstn_nil. cbn. repeat split. eexists. split; reflexivity.
Qed.

Lemma downloadPackages_nothing_to_do_witness :
  callback (downloadPackages (always_status 404) two_matches one_entry
                             (fun n => n) (fun n => n) 1 5 0)
  = Some (Success 5).
Proof.
  apply (downloadPackages_nothing_to_do
           (always_status 404) two_matches one_entry
           (fun n => n) (fun n => n) 0 5 0).
  lia.
Defined.



(** X15. When a download is rejected, the callback is called with an
    error: the reason of the first download of that chunk to be rejected;
    and no download of a later chunk is made. *)
Theorem downloadPackages_extraction_failure
        (https_get : request -> option response)
        (re_exec_all : string -> list (string * string))
        (tar_headers : string -> list string * option value)
        (lat1 lat2 : nat -> nat) (fuel now : nat) (count : Z)
        (stage2 : run) (c : invocation) (t : nat) (e : value) :
  extraction (downloadPackages https_get re_exec_all tar_headers
                               lat1 lat2 fuel now count) = Some stage2 ->
  In c (calls stage2) ->
  inv_promise c = Rejected t e ->
  exists t' e' c',
    callback (downloadPackages https_get re_exec_all tar_headers
                               lat1 lat2 fuel now count)
    = Some (Failure t' e') /\
    In c' (calls stage2) /\
    inv_promise c' = Rejected t' e' /\
    (t' <= t)%nat /\
    forall d, In d (calls stage2) -> (inv_chunk d <= inv_chunk c)%nat.
Proof.
  intros Hex Hin Hrej.
  destruct (outcome (promiseEach (scrape_transform https_get re_exec_all) lat1
                                 fuel 0 0 now (map VNumber (offsets count))
                                 (Some 3%Z)))
    as [[t1 md|t1 e1|]|] eqn:H1.
  2-4: unfold downloadPackages in Hex; rewrite H1 in Hex; discriminate.
  rewrite (downloadPackages_listed https_get re_exec_all tar_headers lat1 lat2
                                   fuel now count t1 md H1) in *.
  cbn [extraction callback] in *. inversion Hex; subst stage2.
  destruct (promiseEach_rejection _ _ _ _ _ _ _ _ _ _ _ Hin Hrej)
    as (t' & e' & c' & Hout & Hin' & Hc' & _ & Hle & Hlast).
  exists t', e', c'. rewrite Hout. auto.
Qed.

Lemma downloadPackages_extraction_failure_witness :
  exists t' e' c',
    callback (downloadPackages
                (fun r => match r with
                          | Options _ _ _ => always_page "<html>" r
                          | Url _ => always_status 404 r
                          end)
                two_matches one_entry (fun n => n) (fun n => n) 4 0 2)
    = Some (Failure t' e') /\
    In c' (calls (promiseEach
                    (download_transform
                       (fun r => match r with
                                 | Options _ _ _ => always_page "<html>" r
                                 | Url _ => always_status 404 r
                                 end)
                       one_entry)
                    (fun n => n) 4 0 0 0
                    [VArray [VString "lodash"; VString "4.17.0"];
                     VArray [VString "@angular/core"; VString "2.0.0"]]
                    (Some 3%Z))) /\
    inv_promise c' = Rejected t' e' /\
    (t' <= 1)%nat /\
    forall d,
      In d (calls (promiseEach
                     (download_transform
                        (fun r => match r with
                                  | Options _ _ _ => always_page "<html>" r
                                  | Url _ => always_status 404 r
                                  end)
                        one_entry)
                     (fun n => n) 4 0 0 0
                     [VArray [VString "lodash"; VString "4.17.0"];
                      VArray [VString "@angular/core"; VString "2.0.0"]]
                     (Some 3%Z))) ->
      (inv_chunk d <= 0)%nat.
Proof.
  apply (downloadPackages_extraction_failure
           (fun r => match r with
                     | Options _ _ _ => always_page "<html>" r
                     | Url _ => always_status 404 r
                     end)
           two_matches one_entry (fun n => n) (fun n => n) 4 0 2
           (promiseEach
              (download_transform
                 (fun r => match r with
                           | Options _ _ _ => always_page "<html>" r
                           | Url _ => always_status 404 r
                           end)
                 one_entry)
              (fun n => n) 4 0 0 0
              [VArray [VString "lodash"; VString "4.17.0"];
               VArray [VString "@angular/core"; VString "2.0.0"]]
              (Some 3%Z))
           {| inv_chunk := 0; inv_number := 1;
              inv_args := [VString "@angular/core"; VString "2.0.0"];
              inv_start := 0;
              inv_promise :=
                Rejected 1 (VError "GET undefinedundefined returned 404") |}
           1 (VError "GET undefinedundefined returned 404")).
  - reflexivity.
  - right. left. reflexivity.
  - reflexivity.
Defined.

(** X16. The pipeline never asks for more than it was told to: it requests
    at most one listing page per offset, hence at most [count] pages, and
    it downloads at most [count] archives. *)
Theorem downloadPackages_request_bounds
        (https_get : request -> option response)
        (re_exec_all : string -> list (string * string))
        (tar_headers : string -> list string * option value)
        (lat1 lat2 : nat -> nat) (fuel now : nat) (count : Z) :
  (List.length (calls (listing (downloadPackages https_get re_exec_all
                                  tar_headers lat1 lat2 fuel now count)))
   <= List.length (offsets count))%nat /\
  (List.length (offsets count) <= Z.to_nat count)%nat /\
  forall stage2,
    extraction (downloadPackages https_get re_exec_all tar_headers
                                 lat1 lat2 fuel now count) = Some stage2 ->
    (List.length (calls stage2) <= Z.to_nat count)%nat.
Proof.
  assert (Hbound : forall func latency t inputs,
             (List.length (calls (promiseEach func latency fuel 0 0 t inputs
                                              (Some 3%Z)))
              <= List.length inputs)%nat).
  { intros func latency t inputs.
    destruct (promiseEach_consumes func latency fuel 0 0 t inputs (Some 3%Z))
      as (consumed & Hparts & Hargs).
    apply (f_equal (@List.length _)) in Hargs. rewrite !length_map in Hargs.
    apply (f_equal (@List.length _)) in Hparts. rewrite length_app in Hparts.
    lia. }
  split; [|split].
  - rewrite listing_stage.
    pose proof (Hbound (scrape_transform https_get re_exec_all) lat1 now
                       (map VNumber (offsets count))) as H.
    now rewrite length_map in H.
  - apply offsets_length.
  - intros stage2 Hex.
    destruct (outcome (promiseEach (scrape_transform https_get re_exec_all) lat1
                                   fuel 0 0 now (map VNumber (offsets count))
                                   (Some 3%Z)))
      as [[t1 md|t1 e1|]|] eqn:H1.
    2-4: unfold downloadPackages in Hex; rewrite H1 in Hex; discriminate.
    rewrite (downloadPackages_listed https_get re_exec_all tar_headers lat1 lat2
                                     fuel now count t1 md H1) in Hex.
    cbn [extraction] in Hex. inversion Hex; subst stage2.
    pose proof (Hbound (download_transform https_get tar_headers) lat2 t1
                       (firstn (Z.to_nat count) md)) as H.
    rewrite length_firstn in H. lia.
Qed.

(** X17. The pipeline always comes to an end: with more fuel than [count]
    the model tells what happens to the callback (called without an error,
    called with one, or never called because a request never settles). *)
Theorem downloadPackages_terminates
        (https_get : request -> option response)
        (re_exec_all : string -> list (string * string))
        (tar_headers : string -> list string * option value)
        (lat1 lat2 : nat -> nat) (fuel now : nat) (count : Z) :
  (Z.to_nat count < fuel)%nat ->
  callback (downloadPackages https_get re_exec_all tar_headers
                             lat1 lat2 fuel now count) <> None.
Proof.
  intros Hfuel.
  pose proof (offsets_length count) as Hoff.
  assert (H1 : outcome (promiseEach (scrape_transform https_get re_exec_all)
                                    lat1 fuel 0 0 now
                                    (map VNumber (offsets count)) (Some 3%Z))
               <> None).
  { apply promiseEach_terminates; [cbn; lia|]. rewrite length_map. lia. }
  destruct (outcome (promiseEach (scrape_transform https_get re_exec_all) lat1
                                 fuel 0 0 now (map VNumber (offsets count))
                                 (Some 3%Z)))
    as [[t1 md|t1 e1|]|] eqn:E1; [| | |congruence].
  - rewrite (downloadPackages_listed https_get re_exec_all tar_headers lat1 lat2
                                     fuel now count t1 md E1).
    cbn [callback].
    assert (H2 : outcome (promiseEach (download_transform https_get tar_headers)
                                      lat2 fuel 0 0 t1
                                      (firstn (Z.to_nat count) md) (Some 3%Z))
                 <> None).
    { apply promiseEach_terminates; [cbn; lia|]. rewrite length_firstn. lia. }
    destruct (outcome (promiseEach (download_transform https_get tar_headers)
                                   lat2 fuel 0 0 t1
                                   (firstn (Z.to_nat count) md) (Some 3%Z)))
      as [[| |]|]; [discriminate|discriminate|discriminate|congruence].
  - unfold downloadPackages. rewrite E1. discriminate.
  - unfold downloadPackages. rewrite E1. discriminate.
Qed.

Lemma downloadPackages_terminates_witness :
  callback (downloadPackages (always_status 200) two_matches one_entry
                             (fun n => n) (fun n => n) 3 0 2) <> None.
Proof.
  apply (downloadPackages_terminates
           (always_status 200) two_matches one_entry (fun n => n) (fun n => n)
           3 0 2).
  cbn. lia.
Defined.

(** X18. Over the whole pipeline, listing and extraction together, at most
    three requests are pending at any instant: the extraction stage starts
    only when every listing request has been fulfilled. *)
Theorem downloadPackages_bounded_concurrency
        (https_get : request -> option response)
        (re_exec_all : string -> list (string * string))
        (tar_headers : string -> list string * option value)
        (lat1 lat2 : nat -> nat) (fuel now : nat) (count : Z) (instant : nat) :
  (in_flight instant
     (calls (listing (downloadPackages https_get re_exec_all tar_headers
                                       lat1 lat2 fuel now count))
      ++ match extraction (downloadPackages https_get re_exec_all tar_headers
                                            lat1 lat2 fuel now count) with
         | Some stage2 => calls stage2
         | None => []
         end)
   <= 3)%nat.
Proof.
  pose proof (promiseEach_in_flight (scrape_transform https_get re_exec_all)
                lat1 fuel 0 0 now (map VNumber (offsets count)) (Some 3%Z)
                instant) as Hone.
  change (Z.to_nat (default_limit (Some 3%Z))) with 3%nat in Hone.
  destruct (outcome (promiseEach (scrape_transform https_get re_exec_all) lat1
                                 fuel 0 0 now (map VNumber (offsets count))
                                 (Some 3%Z)))
    as [[t1 md|t1 e1|]|] eqn:E1.
  2-4: unfold downloadPackages; rewrite E1; cbn [listing extraction];
       rewrite app_nil_r; exact Hone.
  rewrite (downloadPackages_listed https_get re_exec_all tar_headers lat1 lat2
                                   fuel now count t1 md E1).
  cbn [listing extraction]. rewrite in_flight_app.
  pose proof (promiseEach_in_flight (download_transform https_get tar_headers)
                lat2 fuel 0 0 t1 (firstn (Z.to_nat count) md) (Some 3%Z)
                instant) as Htwo.
  change (Z.to_nat (default_limit (Some 3%Z))) with 3%nat in Htwo.
  destruct (Nat.lt_ge_cases instant t1) as [Hbefore|Hafter].
  - rewrite (in_flight_zero instant
               (calls (promiseEach (download_transform https_get tar_headers)
                                   lat2 fuel 0 0 t1
                                   (firstn (Z.to_nat count) md) (Some 3%Z))));
      [lia|].
    intros c Hc. apply promiseEach_calls_after in Hc.
    unfold pending_at. destruct (Nat.leb_spec (inv_start c) instant); [lia|].
    reflexivity.
  - rewrite (in_flight_zero instant
               (calls (promiseEach (scrape_transform https_get re_exec_all)
                                   lat1 fuel 0 0 now
                                   (map VNumber (offsets count)) (Some 3%Z))));
      [lia|].
    intros c Hc.
    destruct (proj2 (promiseEach_fulfilled_calls _ _ _ _ _ _ _ _ _ _ E1) c Hc)
      as (tp & v & E & Htp).
    unfold pending_at. rewrite E.
    destruct (Nat.ltb_spec instant tp); [lia|]. apply andb_false_r.
Qed.

(* ===================================================================== *)
(** * An empty listing page, and where files go *)
(* ===================================================================== *)

(** X19. A listing page that is answered with status 200 and an empty body
    stops the pipeline for good: [buffer] is still undefined when the
    stream ends, the promise of that page never settles, so the listing
    stage is never fulfilled; the callback is never called without an
    error, and no archive is ever downloaded. *)
Theorem downloadPackages_empty_page_never_succeeds
        (https_get : request -> option response)
        (re_exec_all : string -> list (string * string))
        (tar_headers : string -> list string * option value)
        (lat1 lat2 : nat -> nat) (fuel now : nat) (count offset : Z)
        (response : response) :
  In offset (offsets count) ->
  https_get (scrape_options (VNumber offset)) = Some response ->
  statusCode response = 200%Z ->
  gunzip response = Data EmptyString ->
  (forall t,
      callback (downloadPackages https_get re_exec_all tar_headers
                                 lat1 lat2 fuel now count)
      <> Some (Success t)) /\
  extraction (downloadPackages https_get re_exec_all tar_headers
                               lat1 lat2 fuel now count) = None.
Proof.
  intros Hoff Hget Hstatus Hbody.
  assert (Hhang : applied (scrape_transform https_get re_exec_all)
                          (VNumber offset) = NeverSettles).
  { unfold applied, scrape_transform, scrapeMostDepended, httpsGetAsync.
    cbn [arguments_of isArray nth]. rewrite Hget, Hstatus.
    cbn [Z.eqb Pos.eqb negb]. rewrite Hbody. reflexivity. }
  assert (Hnot : forall t mostDepended,
             outcome (promiseEach (scrape_transform https_get re_exec_all) lat1
                                  fuel 0 0 now (map VNumber (offsets count))
                                  (Some 3%Z))
             <> Some (Fulfilled t mostDepended)).
  { intros t mostDepended H. apply promiseEach_fulfilled in H.
    destruct H as (_ & Hful & _). rewrite Forall_forall in Hful.
    destruct (Hful (applied (scrape_transform https_get re_exec_all)
                            (VNumber offset))) as [v Hv].
    - apply in_map. now apply in_map.
    - congruence. }
  rewrite (downloadPackages_not_listed https_get re_exec_all tar_headers
                                       lat1 lat2 fuel now count Hnot).
  cbn [callback extraction]. split; [|reflexivity].
  intros t. destruct (outcome _) as [[| |]|]; discriminate.
Qed.

Lemma downloadPackages_empty_page_never_succeeds_witness :
  (forall t,
      callback (downloadPackages (always_status 200) two_matches one_entry
                                 (fun n => n) (fun n => n) 4 0 1)
      <> Some (Success t)) /\
  extraction (downloadPackages (always_status 200) two_matches one_entry
                               (fun n => n) (fun n => n) 4 0 1) = None.
Proof.
  apply (downloadPackages_empty_page_never_succeeds
           (always_status 200) two_matches one_entry (fun n => n) (fun n => n)
           4 0 1 0 {| statusCode := 200%Z; gunzip := Data EmptyString |}).
  - left. reflexivity.
  - reflexivity.
  - reflexivity.
  - reflexivity.
Defined.

Lemma append_cancel_l (a x y : string) :
  (a ++ x)%string = (a ++ y)%string -> x = y.
Proof.
  induction a as [|c a IH]; cbn; [easy|]. intros [= H]. now apply IH.
Qed.

(** Two texts cut at their first slash. *)
Lemma split_at_slash (a b r1 r2 : string) :
  ~ In "/"%char (list_ascii_of_string a) ->
  ~ In "/"%char (list_ascii_of_string b) ->
  (a ++ String "/" r1)%string = (b ++ String "/" r2)%string ->
  a = b /\ r1 = r2.
Proof.
  revert b. induction a as [|c a IH]; intros [|d b] Ha Hb H; cbn in H.
  - now inversion H.
  - inversion H; subst. exfalso. apply Hb. now left.
  - inversion H; subst. exfalso. apply Ha. now left.
  - inversion H; subst. destruct (IH b) as [-> ->]; auto.
    + intros Hin. apply Ha. now right.
    + intros Hin. apply Hb. now right.
Qed.

(** X21. For packages whose names are not empty, [.] or [..], two entries
    of the wrapper segment [package/...] whose paths have no empty
    segment, no [.] and no [..] are written to the same place only when
    they are the same entry of the same package. *)
Theorem written_to_disjoint (pkg1 pkg2 rest1 rest2 : string) :
  plain pkg1 = true -> plain pkg2 = true ->
  plain_path rest1 = true -> plain_path rest2 = true ->
  written_to pkg1 ("package/" ++ rest1)
  = written_to pkg2 ("package/" ++ rest2) ->
  pkg1 = pkg2 /\ rest1 = rest2.
Proof.
  intros Hp1 Hp2 Hr1 Hr2.
  rewrite (written_to_wrapper pkg1 rest1 Hp1 Hr1),
          (written_to_wrapper pkg2 rest2 Hp2 Hr2).
  intros H. apply (append_cancel_l "packages/") in H.
  apply split_at_slash in H; try apply encodeURIComponent_no_slash.
  destruct H as [H ->]. split; [|reflexivity].
  now apply encodeURIComponent_injective.
Qed.

Lemma written_to_disjoint_witness :
  ("lod" ++ "ash")%string = "lodash" /\ "lib/index.js" = "lib/index.js".
Proof.
  apply (written_to_disjoint ("lod" ++ "ash") "lodash"
                             "lib/index.js" "lib/index.js");
    reflexivity.
Defined.
